(** * ManaScanner: the MTG Arena log parser and its deck monitor

    A shallow embedding of [mtg-arena-daemon/log_parser.py] (class
    [LogParser]), of the deduplication path of
    [mtg-arena-daemon/daemon.py] (class [MTGArenaDaemon]) and of the file
    names and text formats of [mtg-arena-daemon/deck_exporter.py] (class
    [DeckExporter]), followed by the properties of the scan pipeline.

    Python values are embedded as one inductive type [json]: what
    [json.loads] returns, and also what [parse_deck_list] builds, since a
    canonical deck is a plain Python dict.  A dict is an association list
    in insertion order (Python dicts keep it, and [str] shows it).

    The decoder [json.loads] (its values, and the texts on which it
    raises something other than [JSONDecodeError]), the clock
    [datetime.now], the byte decoder of the file object and what [seek]
    makes of a cookie belong to the Python runtime, not to the
    repository: the parser is stated over them as section variables.  A
    small reference decoder, [json_decode], is given for running the
    pipeline on concrete log text. *)

From Stdlib Require Import ZArith List Ascii String Bool Lia.
From Stdlib Require Import Floats.SpecFloat DecimalString.
From stdpp Require Import base list gmap strings.
Import ListNotations.

Local Open Scope Z_scope.

(** ** Python values *)

Module Py.

#[local] Unset Elimination Schemes.

Inductive json : Type :=
| JNull
| JBool (b : bool)
| JInt (n : Z)
| JFloat (x : spec_float)
| JStr (s : string)
| JArr (items : list json)
| JObj (members : list (string * json)).

#[local] Set Elimination Schemes.

(** A Python [dict] with string keys, in insertion order. *)
Definition dict : Type := list (string * json).

(** Log text: a sequence of characters. *)
Definition text : Type := list ascii.

(** [bool(v)]: the truth value Python gives to [v]. *)
Definition truthy (v : json) : bool :=
  match v with
  | JNull => false
  | JBool b => b
  | JInt n => negb (n =? 0)
  | JFloat (S754_zero _) => false
  | JFloat _ => true
  | JStr s => negb (String.eqb s EmptyString)
  | JArr [] => false
  | JArr _ => true
  | JObj [] => false
  | JObj _ => true
  end.

(** [a or b]: [a] if it is truthy, else [b]. *)
Definition or_ (a b : json) : json := if truthy a then a else b.

(** [d[k]] when present. *)
Fixpoint lookup (k : string) (d : dict) : option json :=
  match d with
  | [] => None
  | (k', v) :: d' => if String.eqb k k' then Some v else lookup k d'
  end.

(** [k in d]. *)
Definition contains (k : string) (d : dict) : bool :=
  match lookup k d with Some _ => true | None => false end.

(** [d.get(k, default)]. *)
Definition get_default (d : dict) (k : string) (default : json) : json :=
  match lookup k d with Some v => v | None => default end.

(** [d.get(k)]: [None] when the key is absent. *)
Definition get (d : dict) (k : string) : json := get_default d k JNull.

(** [d[k] = v]: replaces in place, or appends a new key. *)
Fixpoint set (k : string) (v : json) (d : dict) : dict :=
  match d with
  | [] => [(k, v)]
  | (k', v') :: d' =>
      if String.eqb k k' then (k, v) :: d' else (k', v') :: set k v d'
  end.

(** [len(v)]; [None] stands for the [TypeError] of an unsized value. *)
Definition len (v : json) : option Z :=
  match v with
  | JStr s => Some (Z.of_nat (String.length s))
  | JArr items => Some (Z.of_nat (length items))
  | JObj members => Some (Z.of_nat (length members))
  | _ => None
  end.

(** [s[a:b]] on a sequence, with Python's reading of negative and
    out-of-range bounds. *)
Definition clamp_index {A} (s : list A) (i : Z) : Z :=
  let n := Z.of_nat (length s) in
  let j := if i <? 0 then i + n else i in
  Z.max 0 (Z.min j n).

Definition slice {A} (s : list A) (a b : Z) : list A :=
  let a' := clamp_index s a in
  let b' := clamp_index s b in
  firstn (Z.to_nat (b' - a')) (skipn (Z.to_nat a') s).

(** [s[a:]]. *)
Definition slice_from {A} (s : list A) (a : Z) : list A :=
  skipn (Z.to_nat (clamp_index s a)) s.

(** A string or [None]. *)
Definition str_or_none (v : json) : bool :=
  match v with
  | JNull | JStr _ => true
  | _ => false
  end.

(** A positive integer. *)
Definition positive_int (v : json) : bool :=
  match v with
  | JInt n => 0 <? n
  | _ => false
  end.

(** [str(n)] for an integer. *)
Definition str_int (n : Z) : string := NilZero.string_of_int (Z.to_int n).

End Py.

Import Py.

(** Characters of interest. *)
Definition lbrace : ascii := ascii_of_nat 123.
Definition rbrace : ascii := ascii_of_nat 125.
Definition dquote : ascii := ascii_of_nat 34.

(** ** A reference JSON decoder

    [json_decode] follows the grammar of Python's [json.loads] on the
    fragment used by the examples below: objects (a repeated key keeps
    its first position and its last value), arrays, strings with the
    one-letter escapes, integers, [true], [false], [null] and the four
    whitespace characters.  Numbers with a fraction or an exponent and
    unicode escapes are outside the fragment and are refused.  The
    theorems about the parser hold for every decoder; this one only
    supplies concrete runs. *)

Module Decoder.

Definition backslash : ascii := ascii_of_nat 92.

Definition is_ws (c : ascii) : bool :=
  let n := nat_of_ascii c in
  (n =? 32)%nat || (n =? 9)%nat || (n =? 10)%nat || (n =? 13)%nat.

Fixpoint skip_ws (s : text) : text :=
  match s with
  | c :: s' => if is_ws c then skip_ws s' else s
  | [] => []
  end.

Fixpoint strip_prefix (p s : text) : option text :=
  match p, s with
  | [], _ => Some s
  | c :: p', d :: s' => if Ascii.eqb c d then strip_prefix p' s' else None
  | _ :: _, [] => None
  end.

Definition digit_of (c : ascii) : option Z :=
  let n := Z.of_nat (nat_of_ascii c) in
  if (48 <=? n) && (n <=? 57) then Some (n - 48) else None.

Fixpoint read_digits (s : text) (acc : Z) : Z * text :=
  match s with
  | c :: s' =>
      match digit_of c with
      | Some d => read_digits s' (10 * acc + d)
      | None => (acc, s)
      end
  | [] => (acc, [])
  end.

(** An integer literal must not run into a fraction or an exponent. *)
Definition integer_ends (rest : text) : bool :=
  match rest with
  | c :: _ => negb (Ascii.eqb c "." || Ascii.eqb c "e" || Ascii.eqb c "E")
  | [] => true
  end.

Definition decode_number (s : text) : option (json * text) :=
  let '(sign, s1) :=
    match s with
    | c :: s' => if Ascii.eqb c "-" then (-1, s') else (1, s)
    | [] => (1, s)
    end in
  match s1 with
  | c :: s2 =>
      match digit_of c with
      | Some d =>
          let '(n, rest) := if d =? 0 then (0, s2) else read_digits s2 d in
          if integer_ends rest then Some (JInt (sign * n), rest) else None
      | None => None
      end
  | [] => None
  end.

Definition unescape (c : ascii) : option ascii :=
  if Ascii.eqb c dquote then Some dquote
  else if Ascii.eqb c backslash then Some backslash
  else if Ascii.eqb c "/" then Some "/"%char
  else if Ascii.eqb c "b" then Some (ascii_of_nat 8)
  else if Ascii.eqb c "f" then Some (ascii_of_nat 12)
  else if Ascii.eqb c "n" then Some (ascii_of_nat 10)
  else if Ascii.eqb c "r" then Some (ascii_of_nat 13)
  else if Ascii.eqb c "t" then Some (ascii_of_nat 9)
  else None.

(** The characters after an opening quote, up to the closing one. *)
Fixpoint decode_string (s : text) (acc : list ascii) : option (string * text) :=
  match s with
  | [] => None
  | c :: s' =>
      if Ascii.eqb c dquote then Some (string_of_list_ascii (rev acc), s')
      else if Ascii.eqb c backslash then
        match s' with
        | e :: s'' =>
            match unescape e with
            | Some ch => decode_string s'' (ch :: acc)
            | None => None
            end
        | [] => None
        end
      else if (nat_of_ascii c <? 32)%nat then None
      else decode_string s' (c :: acc)
  end.

Definition literal (word : string) (v : json) (s : text) : option (json * text) :=
  match strip_prefix (list_ascii_of_string word) s with
  | Some rest => Some (v, rest)
  | None => None
  end.

Fixpoint decode_value (fuel : nat) (s : text) {struct fuel}
    : option (json * text) :=
  match fuel with
  | O => None
  | S fuel' =>
      match s with
      | [] => None
      | c :: s' =>
          if Ascii.eqb c dquote then
            match decode_string s' [] with
            | Some (str, rest) => Some (JStr str, rest)
            | None => None
            end
          else if Ascii.eqb c "[" then
            match skip_ws s' with
            | c' :: rest =>
                if Ascii.eqb c' "]" then Some (JArr [], rest)
                else decode_items fuel' (c' :: rest) []
            | [] => None
            end
          else if Ascii.eqb c lbrace then
            match skip_ws s' with
            | c' :: rest =>
                if Ascii.eqb c' rbrace then Some (JObj [], rest)
                else decode_members fuel' (c' :: rest) []
            | [] => None
            end
          else if Ascii.eqb c "n" then literal "null" JNull s
          else if Ascii.eqb c "t" then literal "true" (JBool true) s
          else if Ascii.eqb c "f" then literal "false" (JBool false) s
          else decode_number s
      end
  end
with decode_items (fuel : nat) (s : text) (acc : list json) {struct fuel}
    : option (json * text) :=
  match fuel with
  | O => None
  | S fuel' =>
      match decode_value fuel' s with
      | Some (v, rest) =>
          match skip_ws rest with
          | c :: rest' =>
              if Ascii.eqb c "," then
                decode_items fuel' (skip_ws rest') (acc ++ [v])
              else if Ascii.eqb c "]" then Some (JArr (acc ++ [v]), rest')
              else None
          | [] => None
          end
      | None => None
      end
  end
with decode_members (fuel : nat) (s : text) (acc : dict) {struct fuel}
    : option (json * text) :=
  match fuel with
  | O => None
  | S fuel' =>
      match s with
      | c :: s' =>
          if Ascii.eqb c dquote then
            match decode_string s' [] with
            | Some (key, rest) =>
                match skip_ws rest with
                | c1 :: rest1 =>
                    if Ascii.eqb c1 ":" then
                      match decode_value fuel' (skip_ws rest1) with
                      | Some (v, rest2) =>
                          match skip_ws rest2 with
                          | c2 :: rest3 =>
                              if Ascii.eqb c2 "," then
                                decode_members fuel' (skip_ws rest3)
                                  (Py.set key v acc)
                              else if Ascii.eqb c2 rbrace then
                                Some (JObj (Py.set key v acc), rest3)
                              else None
                          | [] => None
                          end
                      | None => None
                      end
                    else None
                | [] => None
                end
            | None => None
            end
          else None
      | [] => None
      end
  end.

(** The whole text must be one value between optional whitespace. *)
Definition json_decode (s : text) : option json :=
  match decode_value (2 * length s + 2) (skip_ws s) with
  | Some (v, rest) =>
      match skip_ws rest with
      | [] => Some v
      | _ :: _ => None
      end
  | None => None
  end.

End Decoder.

(** Log text for the examples, written with an apostrophe for each double
    quote. *)
Definition log_text (s : string) : text :=
  map (fun c => if Ascii.eqb c "'" then dquote else c) (list_ascii_of_string s).

(** ** log_parser.py *)

Module LogParser.

(** The state of the loop of [extract_json_blocks]. *)
Record scan_state : Type := ScanState {
  brace_level : Z;
  start_idx : Z;
  json_blocks : list dict
}.

Definition scan_init : scan_state :=
  {| brace_level := 0; start_idx := -1; json_blocks := [] |}.

(** *** The brace scan on its own

    What the loop does to its depth counter and where its candidate
    blocks lie does not depend on the decoder.  [span_loop] is the loop
    of [extract_json_blocks] with the decoding left out: it records the
    pair (first index, last index) of each candidate it would decode. *)

Definition brace_delta (char : ascii) : Z :=
  if Ascii.eqb char lbrace then 1
  else if Ascii.eqb char rbrace then -1
  else 0.

(** Opening braces minus closing braces. *)
Fixpoint balance (s : text) : Z :=
  match s with
  | [] => 0
  | char :: s' => brace_delta char + balance s'
  end.

Definition brace_free (s : text) : bool :=
  forallb (fun char => brace_delta char =? 0) s.

(** From depth [level], the depth stays positive after every character. *)
Fixpoint stays_open (level : Z) (s : text) : bool :=
  match s with
  | [] => true
  | char :: s' =>
      let level' := level + brace_delta char in
      (0 <? level') && stays_open level' s'
  end.

(** A fragment that begins with an opening brace whose matching closing
    brace never comes. *)
Definition unterminated (frag : text) : bool :=
  match frag with
  | char :: _ => Ascii.eqb char lbrace && stays_open 0 frag
  | [] => false
  end.

Record span_state : Type := SpanState {
  span_level : Z;
  span_start : Z;
  spans : list (Z * Z)
}.

Definition span_init : span_state :=
  {| span_level := 0; span_start := -1; spans := [] |}.

Definition span_char (i : Z) (char : ascii) (st : span_state) : span_state :=
  if Ascii.eqb char lbrace then
    {| span_level := span_level st + 1;
       span_start := if span_level st =? 0 then i else span_start st;
       spans := spans st |}
  else if Ascii.eqb char rbrace then
    let level := span_level st - 1 in
    if (level =? 0) && negb (span_start st =? -1) then
      {| span_level := level;
         span_start := -1;
         spans := spans st ++ [(span_start st, i)] |}
    else
      {| span_level := level;
         span_start := span_start st;
         spans := spans st |}
  else st.

Fixpoint span_loop (i : Z) (rest : text) (st : span_state) : span_state :=
  match rest with
  | [] => st
  | char :: rest' => span_loop (i + 1) rest' (span_char i char st)
  end.

Definition block_spans (log_content : text) : list (Z * Z) :=
  spans (span_loop 0 log_content span_init).

(** The loop invariant: a recorded start lies before the current index,
    and the depth is positive while one is recorded. *)
Definition span_inv (i : Z) (st : span_state) : Prop :=
  span_start st < i /\ (span_start st <> -1 -> 1 <= span_level st).

(** What can be said of a block closed while scanning from index [i]
    over [n] characters, in terms of the state [st] at [i]: it starts at
    the start already recorded, or later; it starts at [i] itself only
    from depth zero. *)
Definition new_span_ok (i n : Z) (st : span_state) (span : Z * Z) : Prop :=
  ((fst span = span_start st /\ span_start st <> -1) \/
   (i <= fst span /\ (fst span = i -> span_level st = 0))) /\
  fst span <= snd span /\ i <= snd span < i + n.

(** *** File positions

    Text-mode [seek] reads its argument as a cookie: the low 64 bits are
    the byte position, a signed [off_t]; the bits above carry the state
    of the decoder.  Below [cookie_base] the argument is the byte position
    itself, and a position from [off_t_limit] on is negative as an
    [off_t], which the seek of the underlying file refuses. *)
Definition off_t_limit : Z := 9223372036854775808.
Definition cookie_base : Z := 18446744073709551616.

(** A file on disk: its bytes, fewer than [off_t_limit] of them, a file
    size being an [off_t]. *)
Record disk_file : Type := DiskFile {
  file_bytes : list ascii;
  file_fits : (Z.of_nat (length file_bytes) <? off_t_limit) = true
}.

Section Parser.

(** [json.loads]: [None] stands for [json.JSONDecodeError], the one
    exception the loop catches.  On a text whose first character is an
    opening brace Python's decoder returns a dict or raises, so a block is
    kept only when the result is a [JObj]. *)
Variable json_loads : text -> option json.

(** [json.loads] leaves by another exception on some texts: a
    [ValueError] on an integer literal of more digits than the
    interpreter converts, a [RecursionError] on nesting too deep.
    [json_raises] tells on which; there the value of [json_loads] is not
    looked at. *)
Variable json_raises : text -> bool.

(** [datetime.now().isoformat()]: the reading taken by the [k]-th
    normalization of a batch. *)
Variable clock : nat -> string.

(** The text a run of file bytes reads as in text mode
    ([encoding='utf-8', errors='ignore'], newlines translated). *)
Variable decode : list ascii -> text.

(** One iteration of [for i, char in enumerate(log_content)], for a
    candidate on which the decoder returns or raises [JSONDecodeError];
    any other exception of the decoder is not caught here and ends the
    loop. *)
Definition scan_char (log_content : text) (i : Z) (char : ascii)
    (st : scan_state) : scan_state :=
  if Ascii.eqb char lbrace then
    {| brace_level := brace_level st + 1;
       start_idx := if brace_level st =? 0 then i else start_idx st;
       json_blocks := json_blocks st |}
  else if Ascii.eqb char rbrace then
    let level := brace_level st - 1 in
    if (level =? 0) && negb (start_idx st =? -1) then
      let json_str := slice log_content (start_idx st) (i + 1) in
      {| brace_level := level;
         start_idx := -1;
         json_blocks :=
           match json_loads json_str with
           | Some (JObj json_obj) => json_blocks st ++ [json_obj]
           | _ => json_blocks st
           end |}
    else
      {| brace_level := level;
         start_idx := start_idx st;
         json_blocks := json_blocks st |}
  else st.

Fixpoint scan_loop (log_content : text) (i : Z) (rest : text)
    (st : scan_state) : scan_state :=
  match rest with
  | [] => st
  | char :: rest' =>
      scan_loop log_content (i + 1) rest' (scan_char log_content i char st)
  end.

(** [extract_json_blocks], when no candidate makes the decoder raise
    anything but [JSONDecodeError]; [scan_raises] below tells when one
    does, and then the exception leaves the loop, [extract_json_blocks]
    and [parse_log_chunk], to be caught in [parse_file]. *)
Definition extract_json_blocks (log_content : text) : list dict :=
  json_blocks (scan_loop log_content 0 log_content scan_init).

(** The candidates are the slices at [block_spans], whatever the decoder
    answers; the scan raises when the decoder does on one of them. *)
Definition scan_raises (log_content : text) : bool :=
  existsb (fun span =>
             json_raises (slice log_content (fst span) (snd span + 1)))
          (block_spans log_content).

(** What the loop keeps of the candidate at [span]. *)
Definition decode_block (log_content : text) (span : Z * Z) : option dict :=
  match json_loads (slice log_content (fst span) (snd span + 1)) with
  | Some (JObj json_obj) => Some json_obj
  | _ => None
  end.

Definition deck_keys : list string :=
  ["mainDeck"; "sideboard"; "deckId"; "name"; "decks"; "deckList";
   "mainBoard"]%string.

Definition is_deck_data (json_obj : dict) : bool :=
  existsb (fun key => contains key json_obj) deck_keys.

Definition extract_decks (json_obj : dict) : list json :=
  if contains "decks" json_obj then
    match get json_obj "decks" with
    | JArr decks_data => decks_data
    | JObj decks_data => [JObj decks_data]
    | _ => []
    end
  else if contains "mainDeck" json_obj || contains "mainBoard" json_obj then
    [JObj json_obj]
  else [].

(** The card entry appended for one element of a card list. *)
Definition card_entry (card : dict) : json :=
  JObj [("card_id", or_ (get card "cardId") (get card "id"));
        ("quantity", get_default card "quantity" (JInt 1));
        ("name", get_default card "name" (JStr "Unknown"))]%string.

(** [for card in cards: if isinstance(card, dict): ...append(...)]. *)
Fixpoint card_entries (cards : list json) : list json :=
  match cards with
  | [] => []
  | JObj card :: cards' => card_entry card :: card_entries cards'
  | _ :: cards' => card_entries cards'
  end.

Definition commander_entry (card_id : json) : json :=
  JObj [("card_id", card_id);
        ("quantity", JInt 1);
        ("name", JStr "Unknown")]%string.

(** The entries a source list under [key] contributes: none when the key
    is absent or its value is not a list. *)
Definition listed (deck_data : dict) (key : string)
    (entries : list json -> list json) : list json :=
  if contains key deck_data then
    match get deck_data key with
    | JArr items => entries items
    | _ => []
    end
  else [].

(** [parse_deck_list]; [now] is the clock reading of this call.  A value
    that is not a dict has no [get]: the [AttributeError] is caught and
    the result is [None]. *)
Definition parse_deck_list (now : string) (deck_data : json) : option json :=
  match deck_data with
  | JObj deck_data =>
      let main_key :=
        (if contains "mainDeck" deck_data then "mainDeck" else "mainBoard")%string in
      Some (JObj
        [("id", or_ (or_ (get deck_data "id") (get deck_data "deckId"))
                    (get deck_data "deckID"));
         ("name", or_ (or_ (get deck_data "name") (get deck_data "deckName"))
                      (JStr "Unnamed Deck"));
         ("format", or_ (get deck_data "format") (JStr "unknown"));
         ("description", get_default deck_data "description" (JStr EmptyString));
         ("main_deck", JArr (listed deck_data main_key card_entries));
         ("sideboard", JArr (listed deck_data "sideboard" card_entries));
         ("commander",
            JArr (listed deck_data "commandZoneGRPIds" (map commander_entry)));
         ("timestamp", JStr now)]%string)
  | _ => None
  end.

(** The raw decks of a batch of blocks, in order: the two outer loops of
    [parse_log_chunk]. *)
Definition raw_decks (blocks : list dict) : list json :=
  flat_map (fun json_obj =>
              if is_deck_data json_obj then extract_decks json_obj else [])
           blocks.

(** The inner loop body: normalize, keep the deck unless it is [None]. *)
Fixpoint normalize_from (tick : nat) (deck_list : list json) : list json :=
  match deck_list with
  | [] => []
  | deck_data :: rest =>
      match parse_deck_list (clock tick) deck_data with
      | Some deck => deck :: normalize_from (S tick) rest
      | None => normalize_from (S tick) rest
      end
  end.

Definition parse_log_chunk (log_content : text) (start_pos : Z) : list json :=
  let chunk := slice_from log_content start_pos in
  normalize_from 0%nat (raw_decks (extract_json_blocks chunk)).

(** What [read] returns after a [seek] to a cookie that carries decoder
    state (an argument from [cookie_base] on), [None] when that [seek]
    raises. *)
Variable cookie_text : Z -> list ascii -> option text.

(** [f.seek(from_position)] then [f.read()]: the text read, [None] when
    [seek] raises. *)
Definition seek_read (bytes : list ascii) (from_position : Z) : option text :=
  if from_position mod cookie_base <? off_t_limit then
    if from_position <? cookie_base then
      Some (decode (skipn (Z.to_nat from_position) bytes))
    else cookie_text from_position bytes
  else None.

(** [parse_file].  The file at [file_path] is [None] when it does not
    exist ([FileNotFoundError]), else what is on disk.  [seek] refuses a
    negative argument with a [ValueError]; that, any other exception of
    [seek] and an exception that leaves [parse_log_chunk] are absorbed by
    [except Exception].  Past the end the position stays where it was
    put, [read] returns the empty text, and after [read] has run to the
    end of the file [tell] answers the byte position.  A file system
    that refuses a position far past the end makes [seek] raise there;
    the call then returns what it returns here, no deck and
    [from_position]. *)
Definition parse_file (file : option disk_file) (from_position : Z)
    : list json * Z :=
  match file with
  | None => ([], from_position)
  | Some on_disk =>
      if from_position <? 0 then ([], from_position)
      else
        match seek_read (file_bytes on_disk) from_position with
        | None => ([], from_position)
        | Some content =>
            let new_position :=
              Z.max (from_position mod cookie_base)
                    (Z.of_nat (length (file_bytes on_disk))) in
            if scan_raises content then ([], from_position)
            else
              let decks := parse_log_chunk content 0 in
              (decks, new_position)
        end
  end.

End Parser.

End LogParser.

(** ** daemon.py: the deduplication path *)

Module MTGArenaDaemon.

Import LogParser.

(** The fields of the daemon that [process_log_file] reads and writes;
    [exports] lists the decks handed to [exporter.export_deck], in order. *)
Record daemon_state : Type := DaemonState {
  last_position : Z;
  exported_decks : gset string;
  exports : list json
}.

Section Daemon.

Variable json_loads : text -> option json.
Variable json_raises : text -> bool.
Variable clock : nat -> string.
Variable decode : list ascii -> text.
Variable cookie_text : Z -> list ascii -> option text.

(** [str] on a float, a list or a dict (their [repr]). *)
Variable str_compound : json -> string.

(** [config['deck_export']['auto_export']]. *)
Variable auto_export : bool.

(** What an f-string field shows for a value. *)
Definition str (v : json) : string :=
  match v with
  | JNull => "None"
  | JBool true => "True"
  | JBool false => "False"
  | JInt n => str_int n
  | JStr s => s
  | _ => str_compound v
  end.

(** [get_deck_id]; [None] stands for the [TypeError] of [len]. *)
Definition get_deck_id (deck : dict) : option string :=
  let deck_id := get_default deck "id" (JStr EmptyString) in
  let deck_name := get_default deck "name" (JStr EmptyString) in
  match len (get_default deck "main_deck" (JArr [])) with
  | Some main_count =>
      Some (str deck_id +:+ "_" +:+ str deck_name +:+ "_" +:+ str_int main_count)
  | None => None
  end.

(** The loop [for deck in decks] of [process_log_file].  An exception (a
    deck that is not a dict, an unsized main deck, a deck without the
    ['name'] that both log messages format) leaves the loop: the enclosing
    [except Exception] logs it and the state stays as it then is.
    [export_deck] absorbs its own failures. *)
Fixpoint export_new (decks : list json) (st : daemon_state) : daemon_state :=
  match decks with
  | [] => st
  | JObj deck :: rest =>
      match get_deck_id deck with
      | Some deck_id =>
          if contains "name" deck then
            if decide (deck_id ∈ exported_decks st) then export_new rest st
            else
              export_new rest
                {| last_position := last_position st;
                   exported_decks := {[deck_id]} ∪ exported_decks st;
                   exports := exports st ++ [JObj deck] |}
          else st
      | None => st
      end
  | _ :: _ => st
  end.

Definition process_log_file (file : option disk_file) (st : daemon_state)
    : daemon_state :=
  let '(decks, new_position) :=
    parse_file json_loads json_raises clock decode cookie_text file
      (last_position st) in
  let st' := {| last_position := new_position;
                exported_decks := exported_decks st;
                exports := exports st |} in
  if auto_export then export_new decks st' else st'.

End Daemon.

End MTGArenaDaemon.

(** ** deck_exporter.py: file names and file contents *)

Module DeckExporter.

Definition newline : string := String (ascii_of_nat 10) EmptyString.

(** The nine characters of [invalid_chars]: angle brackets, colon,
    double quote, slash, backslash, bar, question mark, star. *)
Definition invalid_chars : list ascii :=
  ["<"; ">"; ":"; dquote; "/"; Decoder.backslash; "|"; "?"; "*"]%char.

(** [name.replace(char, '_')] for a one-character [char]. *)
Definition replace_char (char : ascii) (name : list ascii) : list ascii :=
  map (fun c => if Ascii.eqb c char then "_"%char else c) name.

(** [sanitize_filename], on the characters of the name (the 8-bit
    characters of this model: [len] counts them). *)
Definition sanitize_chars (name : list ascii) : list ascii :=
  let name := fold_left (fun name char => replace_char char name)
                        invalid_chars name in
  if (100 <? length name)%nat then firstn 100 name else name.

Definition sanitize_filename (name : string) : string :=
  string_of_list_ascii (sanitize_chars (list_ascii_of_string name)).

(** How an export ends: [Failed] when an exception leaves it before the
    file is opened, so that no file is made; else what the file has been
    given, and whether the function went on to return ([Written]) or an
    exception left it there ([Raised]). *)
Inductive outcome : Type :=
| Failed
| Written (content : string)
| Raised (content : string).

(** A run of statements that write to the open file. *)
Definition writer : Type := string -> outcome.

Definition raise : writer := fun content => Raised content.

Definition skip : writer := fun content => Written content.

Definition then_ (first second : writer) : writer :=
  fun content =>
    match first content with
    | Written content' => second content'
    | Raised content' => Raised content'
    | Failed => Failed
    end.

Notation "a ;; b" := (then_ a b) (at level 100, b at level 200).

(** [for card in v]: the elements of a list, the characters of a string,
    the keys of a dict; [None] stands for the [TypeError] of a value that
    cannot be iterated. *)
Definition iterate (v : json) : option (list json) :=
  match v with
  | JArr items => Some items
  | JStr s => Some (map (fun c => JStr (String c EmptyString))
                        (list_ascii_of_string s))
  | JObj members => Some (map (fun member => JStr (fst member)) members)
  | _ => None
  end.

Section Exporter.

(** [str] on a float, a list or a dict. *)
Variable str_compound : json -> string.

(** [open(file_path, 'w', encoding='utf-8')] makes the file of this name
    in the export directory. *)
Variable opens : string -> bool.

(** The utf-8 encoder of the file accepts the text.  It refuses a lone
    surrogate, which [json.loads] can return from an escape; such
    characters lie outside the 8-bit characters of this model, and
    [encodes] tells which texts hold none. *)
Variable encodes : string -> bool.

#[local] Abbreviation str := (MTGArenaDaemon.str str_compound).

(** [f.write(s)]: the text is encoded when it is written. *)
Definition write (s : string) : writer :=
  fun content => if encodes s then Written (content +:+ s) else Raised content.

(** [generate_filename]; [timestamp] is what
    [datetime.now().strftime(timestamp_format)] returns.  A name that is
    not a string has no [replace]: [None] stands for that
    [AttributeError]. *)
Definition generate_filename (timestamp : string) (deck : dict)
    (extension : string) : option string :=
  match get_default deck "name" (JStr "deck") with
  | JStr name =>
      let deck_name := sanitize_filename name in
      let deck_id := get_default deck "id" (JStr EmptyString) in
      if truthy deck_id then
        Some (deck_name +:+ "_" +:+ str deck_id +:+ "_" +:+ timestamp
              +:+ "." +:+ extension)
      else
        Some (deck_name +:+ "_" +:+ timestamp +:+ "." +:+ extension)
  | _ => None
  end.

(** The line written for one card: [card.get] needs a dict, and
    [card['card_id']] (evaluated for the default name, used or not) and
    [card['quantity']] need their keys. *)
Definition card_line (card : json) : option string :=
  match card with
  | JObj card =>
      match Py.lookup "card_id" card, Py.lookup "quantity" card with
      | Some card_id, Some quantity =>
          let card_name :=
            get_default card "name" (JStr ("Card ID: " +:+ str card_id)) in
          Some (str quantity +:+ " " +:+ str card_name +:+ newline)
      | _, _ => None
      end
  | _ => None
  end.

Fixpoint write_cards (cards : list json) : writer :=
  match cards with
  | [] => skip
  | card :: rest =>
      match card_line card with
      | Some line => write line ;; write_cards rest
      | None => raise
      end
  end.

Definition for_cards (zone : json) : writer :=
  match iterate zone with
  | Some cards => write_cards cards
  | None => raise
  end.

(** [export_text(deck)], the file name left to [generate_filename] as
    [export_deck] calls it; [timestamp] is the clock reading that
    [generate_filename] takes.  An exception of [generate_filename] or of
    [open] leaves before there is a file; one in the [with] block is
    logged and raised again, the file keeping what was written. *)
Definition export_text (timestamp : string) (deck : dict) : outcome :=
  match generate_filename timestamp deck "txt" with
  | None => Failed
  | Some filename =>
      if opens filename then
        ((match Py.lookup "name" deck with
          | Some name => write ("Deck: " +:+ str name +:+ newline)
          | None => raise
          end) ;;
         (if truthy (get deck "format")
          then write ("Format: " +:+ str (get deck "format") +:+ newline)
          else skip) ;;
         (if truthy (get deck "description")
          then write ("Description: " +:+ str (get deck "description")
                      +:+ newline)
          else skip) ;;
         write ("Exported: "
                +:+ str (get_default deck "timestamp" (JStr EmptyString))
                +:+ newline) ;;
         write newline ;;
         (if truthy (get deck "commander")
          then write ("Commander:" +:+ newline) ;;
               for_cards (get deck "commander") ;;
               write newline
          else skip) ;;
         write ("Main Deck:" +:+ newline) ;;
         for_cards (get_default deck "main_deck" (JArr [])) ;;
         (if truthy (get deck "sideboard")
          then write (newline +:+ "Sideboard:" +:+ newline) ;;
               for_cards (get deck "sideboard")
          else skip)) EmptyString
      else Failed
  end.

(** [export_mtga(deck)], likewise. *)
Definition export_mtga (timestamp : string) (deck : dict) : outcome :=
  match generate_filename timestamp deck "mtga.txt" with
  | None => Failed
  | Some filename =>
      if opens filename then
        ((if truthy (get deck "commander")
          then write ("Commander" +:+ newline) ;;
               for_cards (get deck "commander") ;;
               write newline
          else skip) ;;
         write ("Deck" +:+ newline) ;;
         for_cards (get_default deck "main_deck" (JArr [])) ;;
         (if truthy (get deck "sideboard")
          then write (newline +:+ "Sideboard" +:+ newline) ;;
               for_cards (get deck "sideboard")
          else skip)) EmptyString
      else Failed
  end.

End Exporter.

End DeckExporter.

(** ** Notions used by the properties *)

Module Shape.

Import LogParser.

(** From depth [level], the depth is never positive after a character. *)
Fixpoint stays_low (level : Z) (s : text) : bool :=
  match s with
  | [] => true
  | char :: s' =>
      let level' := level + brace_delta char in
      (level' <=? 0) && stays_low level' s'
  end.

(** From depth [level], the depth is positive after every character but
    the last, which brings it to zero. *)
Fixpoint closes (level : Z) (s : text) : bool :=
  match s with
  | [] => false
  | char :: s' =>
      let level' := level + brace_delta char in
      match s' with
      | [] => level' =? 0
      | _ :: _ => (0 <? level') && closes level' s'
      end
  end.

(** A region that opens with a brace and ends with the closing brace
    that matches it. *)
Definition matched (block : text) : bool :=
  match block with
  | char :: rest => Ascii.eqb char lbrace && closes 1 rest
  | [] => false
  end.

(** [char] does not occur in [s]. *)
Definition lacks (char : ascii) (s : text) : bool :=
  forallb (fun c => negb (Ascii.eqb c char)) s.

(** Spans that follow one another without overlap, from [lo] on. *)
Fixpoint in_order (lo : Z) (candidates : list (Z * Z)) : Prop :=
  match candidates with
  | [] => True
  | (a, b) :: rest => lo <= a /\ a < b /\ in_order (b + 1) rest
  end.

Definition shift_span (k : Z) (span : Z * Z) : Z * Z :=
  (fst span + k, snd span + k).

(** The state of the brace scan, moved [k] characters to the right. *)
Definition shift_state (k : Z) (st : span_state) : span_state :=
  {| span_level := span_level st;
     span_start := if span_start st =? -1 then -1 else span_start st + k;
     spans := map (shift_span k) (spans st) |}.

Definition is_dict (v : json) : bool :=
  match v with JObj _ => true | _ => false end.

Definition is_list (v : json) : bool :=
  match v with JArr _ => true | _ => false end.

(** The dicts among the elements of a list, in order. *)
Definition dicts (items : list json) : list dict :=
  omap (fun v => match v with JObj d => Some d | _ => None end) items.

Definition keys (d : dict) : list string := map fst d.

(** The elements of a list value; nothing for any other value. *)
Definition items_of (v : json) : list json :=
  match v with JArr items => items | _ => [] end.

(** No character of [name] is one that [sanitize_filename] replaces. *)
Definition clean (name : list ascii) : bool :=
  forallb (fun c => negb (existsb (Ascii.eqb c) DeckExporter.invalid_chars))
          name.

(** A run of writes that ends without an exception, whatever the file
    already holds. *)
Definition succeeds (w : DeckExporter.writer) : Prop :=
  forall content, exists content', w content = DeckExporter.Written content'.

(** The fingerprint of a deck of a batch, when it has one. *)
Definition fingerprint (str_compound : json -> string) (deck : json)
    : option string :=
  match deck with
  | JObj deck => MTGArenaDaemon.get_deck_id str_compound deck
  | _ => None
  end.

End Shape.

(** * Properties *)

(** ** Sequences and slices *)

Section SliceFacts.

Context {A : Type}.
Implicit Types s t : list A.

Lemma clamp_index_in_range s i :
  0 <= i <= Z.of_nat (length s) -> clamp_index s i = i.
Proof. unfold clamp_index. intros H. destruct (Z.ltb_spec i 0); lia. Qed.

Lemma slice_firstn_skipn s a b :
  0 <= a <= b -> b <= Z.of_nat (length s) ->
  slice s a b = firstn (Z.to_nat (b - a)) (skipn (Z.to_nat a) s).
Proof.
  intros Hab Hb. unfold slice.
  rewrite !clamp_index_in_range by lia. reflexivity.
Qed.

Lemma slice_app_l s t a b :
  0 <= a <= b -> b <= Z.of_nat (length s) ->
  slice (s ++ t) a b = slice s a b.
Proof.
  intros Hab Hb.
  rewrite !slice_firstn_skipn by (rewrite ?length_app; lia).
  rewrite skipn_app, firstn_app, length_skipn.
  replace (Z.to_nat (b - a) - (length s - Z.to_nat a))%nat with 0%nat by lia.
  rewrite firstn_0, app_nil_r. reflexivity.
Qed.

Lemma slice_middle s t u :
  slice (s ++ t ++ u) (Z.of_nat (length s)) (Z.of_nat (length s + length t)) = t.
Proof.
  rewrite slice_firstn_skipn by (rewrite ?length_app; lia).
  rewrite Nat2Z.id.
  replace (Z.to_nat (Z.of_nat (length s + length t) - Z.of_nat (length s)))
    with (length t) by lia.
  rewrite drop_app_length, take_app_length. reflexivity.
Qed.

Lemma slice_from_zero s : slice_from s 0 = s.
Proof.
  unfold slice_from. rewrite clamp_index_in_range by lia. reflexivity.
Qed.

End SliceFacts.

(** ** The brace scan *)

Import LogParser.

Lemma span_char_inert i char st :
  brace_delta char = 0 -> span_char i char st = st.
Proof.
  unfold brace_delta, span_char.
  destruct (Ascii.eqb char lbrace); [discriminate |].
  destruct (Ascii.eqb char rbrace); [discriminate | reflexivity].
Qed.

Lemma span_char_level i char st :
  span_level (span_char i char st) = span_level st + brace_delta char.
Proof.
  unfold brace_delta, span_char.
  destruct (Ascii.eqb char lbrace); simpl; [reflexivity |].
  destruct (Ascii.eqb char rbrace); simpl; [| lia].
  destruct (_ && _); simpl; lia.
Qed.

(** A character that leaves the depth positive closes no block. *)
Lemma span_char_open i char st :
  0 < span_level st + brace_delta char ->
  spans (span_char i char st) = spans st.
Proof.
  unfold brace_delta, span_char.
  destruct (Ascii.eqb char lbrace); simpl; [reflexivity |].
  destruct (Ascii.eqb char rbrace); simpl; [| reflexivity].
  intros H. destruct (Z.eqb_spec (span_level st - 1) 0); [lia |].
  reflexivity.
Qed.

Lemma span_loop_app r1 r2 i st :
  span_loop i (r1 ++ r2) st =
  span_loop (i + Z.of_nat (length r1)) r2 (span_loop i r1 st).
Proof.
  revert i st. induction r1 as [| char r1 IH]; intros i st; simpl.
  - f_equal. lia.
  - rewrite IH. f_equal. lia.
Qed.

Lemma span_loop_level rest i st :
  span_level (span_loop i rest st) = span_level st + balance rest.
Proof.
  revert i st. induction rest as [| char rest IH]; intros i st; simpl.
  - lia.
  - rewrite IH, span_char_level. lia.
Qed.

Lemma span_loop_brace_free rest i st :
  brace_free rest = true -> span_loop i rest st = st.
Proof.
  revert i st. induction rest as [| char rest IH]; intros i st H; simpl.
  - reflexivity.
  - simpl in H. apply andb_true_iff in H as [Hc Hrest].
    rewrite span_char_inert by lia. apply IH, Hrest.
Qed.

Lemma stays_open_mono s l l' :
  l <= l' -> stays_open l s = true -> stays_open l' s = true.
Proof.
  revert l l'. induction s as [| char s IH]; intros l l' Hl H; simpl in *.
  - reflexivity.
  - apply andb_true_iff in H as [Hpos Hs].
    apply andb_true_iff. split; [lia |].
    apply (IH (l + brace_delta char)); [lia | assumption].
Qed.

(** While the depth stays positive no block is closed. *)
Lemma span_loop_stays_open rest i st :
  stays_open (span_level st) rest = true ->
  spans (span_loop i rest st) = spans st.
Proof.
  revert i st. induction rest as [| char rest IH]; intros i st H; simpl in *.
  - reflexivity.
  - apply andb_true_iff in H as [Hpos Hrest].
    rewrite IH by (rewrite span_char_level; assumption).
    apply span_char_open. lia.
Qed.

Lemma span_char_cases i char st :
  let st' := span_char i char st in
  (spans st' = spans st /\
   (span_start st' = span_start st \/
    (span_start st' = i /\ span_level st = 0))) \/
  (spans st' = spans st ++ [(span_start st, i)] /\
   span_start st <> -1 /\ span_start st' = -1).
Proof.
  unfold span_char.
  destruct (Ascii.eqb char lbrace); simpl.
  { left. split; [reflexivity |].
    destruct (Z.eqb_spec (span_level st) 0); [right | left]; auto. }
  destruct (Ascii.eqb char rbrace); simpl; [| left; auto].
  destruct (Z.eqb_spec (span_level st - 1) 0); simpl; [| left; auto].
  destruct (Z.eqb_spec (span_start st) (-1)); simpl; [left; auto |].
  right. auto.
Qed.

Lemma span_char_inv i char st :
  0 <= i -> span_inv i st -> span_inv (i + 1) (span_char i char st).
Proof.
  intros Hi [Hlt Hpos]. unfold span_inv, span_char.
  destruct (Ascii.eqb char lbrace); simpl.
  { destruct (Z.eqb_spec (span_level st) 0); lia. }
  destruct (Ascii.eqb char rbrace); simpl; [| lia].
  destruct (Z.eqb_spec (span_level st - 1) 0); simpl.
  - destruct (Z.eqb_spec (span_start st) (-1)); simpl; lia.
  - lia.
Qed.

Lemma span_loop_new rest : forall i st,
  0 <= i -> span_inv i st ->
  exists new,
    spans (span_loop i rest st) = spans st ++ new /\
    Forall (new_span_ok i (Z.of_nat (length rest)) st) new.
Proof.
  induction rest as [| char rest IH]; intros i st Hi Hinv; simpl span_loop.
  - exists []. rewrite app_nil_r. auto.
  - destruct (IH (i + 1) (span_char i char st)) as (new1 & Heq & Hall);
      [lia | apply span_char_inv; assumption |].
    assert (Hweak : Forall (new_span_ok i (Z.of_nat (length (char :: rest))) st) new1).
    { eapply Forall_impl; [exact Hall |].
      intros [a b] (Hstart & Hab & Hb). simpl in *.
      unfold new_span_ok. simpl.
      split; [| lia].
      destruct (span_char_cases i char st) as [(_ & Hs) | (_ & _ & Hs)];
        destruct Hstart as [[Ha Hne] | [Ha Hz]]; lia. }
    destruct (span_char_cases i char st) as [(Hsp & _) | (Hsp & Hne & _)].
    + exists new1. rewrite Heq, Hsp. auto.
    + exists ((span_start st, i) :: new1).
      rewrite Heq, Hsp, <- app_assoc. split; [reflexivity |].
      constructor; [| exact Hweak].
      destruct Hinv as [Hlt _]. unfold new_span_ok. simpl.
      rewrite Nat2Z.inj_succ. lia.
Qed.

Lemma span_loop_inv rest : forall i st,
  0 <= i -> span_inv i st ->
  span_inv (i + Z.of_nat (length rest)) (span_loop i rest st).
Proof.
  induction rest as [| char rest IH]; intros i st Hi Hinv; simpl span_loop.
  - change (Z.of_nat (length (@nil ascii))) with 0.
    rewrite Z.add_0_r. assumption.
  - replace (i + Z.of_nat (length (char :: rest)))
      with (i + 1 + Z.of_nat (length rest)) by (simpl length; lia).
    apply IH; [lia | apply span_char_inv; assumption].
Qed.

Lemma span_inv_init : span_inv 0 span_init.
Proof. unfold span_inv, span_init. simpl. lia. Qed.

(** Every candidate block lies within the text. *)
Lemma block_spans_bounds log_content :
  Forall (fun span => 0 <= fst span <= snd span /\
                      snd span < Z.of_nat (length log_content))
         (block_spans log_content).
Proof.
  unfold block_spans.
  destruct (span_loop_new log_content 0 span_init) as (new & Heq & Hall);
    [lia | apply span_inv_init |].
  rewrite Heq. simpl.
  eapply Forall_impl; [exact Hall |].
  intros [a b] (Hstart & Hab & Hb). simpl in *. lia.
Qed.

(** One closed object whose body has no brace, met at depth zero. *)
Lemma span_loop_object body i st :
  brace_free body = true -> 0 <= i -> span_level st = 0 ->
  span_loop i (lbrace :: body ++ [rbrace]) st =
  {| span_level := 0;
     span_start := -1;
     spans := spans st ++ [(i, i + Z.of_nat (length body) + 1)] |}.
Proof.
  intros Hfree Hi Hlevel.
  change (lbrace :: body ++ [rbrace]) with ([lbrace] ++ body ++ [rbrace]).
  rewrite !span_loop_app. simpl length.
  rewrite (span_loop_brace_free body) by assumption.
  simpl. unfold span_char. simpl.
  rewrite Hlevel. simpl.
  destruct (Z.eqb_spec i (-1)); [lia |]. simpl.
  replace (i + Z.of_nat 1 + Z.of_nat (length body))
    with (i + Z.of_nat (length body) + 1) by lia.
  reflexivity.
Qed.

Section ScanBlocks.

Variable json_loads : text -> option json.

(** The loop of [extract_json_blocks] and the brace scan move in step:
    same depth, same start, and the blocks kept are the decodings of the
    candidates recorded. *)
Lemma scan_char_spans log_content i char st sst :
  brace_level st = span_level sst ->
  start_idx st = span_start sst ->
  json_blocks st = omap (decode_block json_loads log_content) (spans sst) ->
  let st' := scan_char json_loads log_content i char st in
  let sst' := span_char i char sst in
  brace_level st' = span_level sst' /\
  start_idx st' = span_start sst' /\
  json_blocks st' = omap (decode_block json_loads log_content) (spans sst').
Proof.
  intros Hl Hs Hb. unfold scan_char, span_char.
  rewrite <- Hl, <- Hs.
  destruct (Ascii.eqb char lbrace); simpl; [auto |].
  destruct (Ascii.eqb char rbrace); simpl; [| rewrite Hl, Hs; auto].
  destruct (_ && _); simpl; [| auto].
  repeat split.
  rewrite omap_app, <- Hb. simpl. unfold decode_block. simpl.
  destruct (json_loads _) as [[]|]; simpl; rewrite ?app_nil_r; reflexivity.
Qed.

Lemma scan_loop_spans rest : forall log_content i st sst,
  brace_level st = span_level sst ->
  start_idx st = span_start sst ->
  json_blocks st = omap (decode_block json_loads log_content) (spans sst) ->
  json_blocks (scan_loop json_loads log_content i rest st) =
  omap (decode_block json_loads log_content) (spans (span_loop i rest sst)).
Proof.
  induction rest as [| char rest IH]; intros log_content i st sst Hl Hs Hb;
    simpl.
  - exact Hb.
  - destruct (scan_char_spans log_content i char st sst Hl Hs Hb)
      as (Hl' & Hs' & Hb').
    apply IH; assumption.
Qed.

Lemma extract_json_blocks_spans log_content :
  extract_json_blocks json_loads log_content =
  omap (decode_block json_loads log_content) (block_spans log_content).
Proof.
  unfold extract_json_blocks, block_spans.
  apply scan_loop_spans; reflexivity.
Qed.

(** Candidates inside a prefix decode the same in the longer text. *)
Lemma omap_decode_block_prefix s t (candidates : list (Z * Z)) :
  Forall (fun span => 0 <= fst span <= snd span /\
                      snd span < Z.of_nat (length s)) candidates ->
  omap (decode_block json_loads (s ++ t)) candidates =
  omap (decode_block json_loads s) candidates.
Proof.
  induction 1 as [| [a b] candidates Hspan _ IH]; [reflexivity |].
  simpl in Hspan.
  change ((a, b) :: candidates) with ([(a, b)] ++ candidates).
  rewrite !omap_app, IH. f_equal.
  simpl. unfold decode_block. simpl.
  rewrite slice_app_l by lia. reflexivity.
Qed.

End ScanBlocks.

(** The decoder raises on a candidate inside a prefix as it does on the
    same candidate of the longer text. *)
Lemma existsb_slice_prefix (json_raises : text -> bool) (s t : text)
    (candidates : list (Z * Z)) :
  Forall (fun span => 0 <= fst span <= snd span /\
                      snd span < Z.of_nat (length s)) candidates ->
  existsb (fun span => json_raises (slice (s ++ t) (fst span) (snd span + 1)))
          candidates =
  existsb (fun span => json_raises (slice s (fst span) (snd span + 1)))
          candidates.
Proof.
  induction 1 as [| [a b] candidates Hspan _ IH]; [reflexivity |].
  simpl in *. rewrite IH, slice_app_l by lia. reflexivity.
Qed.

Lemma block_spans_app pre rest :
  block_spans (pre ++ rest) =
  spans (span_loop (Z.of_nat (length pre)) rest (span_loop 0 pre span_init)).
Proof. unfold block_spans. rewrite span_loop_app. reflexivity. Qed.

Lemma unterminated_stays_open frag :
  unterminated frag = true -> stays_open 0 frag = true.
Proof.
  destruct frag as [| char frag]; [discriminate |].
  unfold unterminated. intros H. apply andb_true_iff in H as [_ H]. exact H.
Qed.

(** The blocks closed inside an unterminated fragment start after its
    opening brace, and there are none when the depth is not negative
    where the fragment begins. *)
Lemma unterminated_spans pre frag :
  unterminated frag = true ->
  exists new,
    block_spans (pre ++ frag) = block_spans pre ++ new /\
    Forall (fun span => Z.of_nat (length pre) < fst span) new /\
    (0 <= balance pre -> new = []).
Proof.
  intros Hopen. apply unterminated_stays_open in Hopen.
  rewrite block_spans_app. fold (block_spans pre).
  set (st := span_loop 0 pre span_init).
  assert (Hlevel : span_level st = balance pre).
  { unfold st. rewrite span_loop_level. reflexivity. }
  assert (Hinv : span_inv (Z.of_nat (length pre)) st).
  { apply (span_loop_inv pre 0 span_init); [lia | apply span_inv_init]. }
  destruct (Z.le_gt_cases 0 (balance pre)) as [Hge | Hneg].
  - exists []. rewrite app_nil_r. repeat split; [| constructor].
    apply span_loop_stays_open.
    apply (stays_open_mono frag 0); [lia | assumption].
  - destruct (span_loop_new frag (Z.of_nat (length pre)) st) as (new & Heq & Hall);
      [lia | assumption |].
    exists new. repeat split; [exact Heq | | lia].
    eapply Forall_impl; [exact Hall |].
    intros [a b] (Hstart & _). simpl in *.
    destruct Hinv as [_ Hpos]. lia.
Qed.

(** ** The claims *)

(** C6 (amended). A buffer that ends in an unterminated fragment: the
    decks of the scan come from the decodings of the balanced candidates,
    and no candidate contains the opening brace of the fragment.  Where
    the closing braces before the fragment do not outnumber the opening
    ones, the scan emits no block for the fragment or for anything in it
    and no deck comes of it: the blocks and the decks of the buffer are
    those of the text before the fragment, and the fragment brings no
    exception, the decoder raising in the scan of the buffer exactly when
    it does in the scan of the text before. *)
Theorem unterminated_block_tolerance
    (json_loads : text -> option json) (json_raises : text -> bool)
    (clock : nat -> string) (pre frag : text) :
  unterminated frag = true ->
  let buffer := pre ++ frag in
  let at_brace := Z.of_nat (length pre) in
  parse_log_chunk json_loads clock buffer 0 =
    normalize_from clock 0
      (raw_decks (omap (decode_block json_loads buffer) (block_spans buffer))) /\
  Forall (fun span => ~ (fst span <= at_brace <= snd span))
         (block_spans buffer) /\
  (0 <= balance pre ->
   block_spans buffer = block_spans pre /\
   extract_json_blocks json_loads buffer = extract_json_blocks json_loads pre /\
   parse_log_chunk json_loads clock buffer 0 =
     parse_log_chunk json_loads clock pre 0 /\
   scan_raises json_raises buffer = scan_raises json_raises pre).
Proof.
  intros Hopen buffer at_brace. subst buffer at_brace.
  destruct (unterminated_spans pre frag Hopen) as (new & Heq & Hafter & Hnone).
  split.
  { unfold parse_log_chunk.
    rewrite slice_from_zero, extract_json_blocks_spans. reflexivity. }
  split.
  - rewrite Heq. apply Forall_app. split.
    + eapply Forall_impl; [apply block_spans_bounds |].
      intros [a b] Hb. simpl in *. lia.
    + eapply Forall_impl; [exact Hafter |].
      intros [a b] Ha. simpl in *. lia.
  - intros Hdepth.
    assert (Hspans : block_spans (pre ++ frag) = block_spans pre).
    { rewrite Heq, (Hnone Hdepth), app_nil_r. reflexivity. }
    assert (Hblocks : extract_json_blocks json_loads (pre ++ frag) =
                      extract_json_blocks json_loads pre).
    { rewrite !extract_json_blocks_spans, Hspans.
      apply omap_decode_block_prefix, block_spans_bounds. }
    split; [exact Hspans |]. split; [exact Hblocks |]. split.
    + unfold parse_log_chunk. rewrite !slice_from_zero, Hblocks. reflexivity.
    + unfold scan_raises. rewrite Hspans.
      apply existsb_slice_prefix, block_spans_bounds.
Qed.

Lemma unterminated_block_tolerance_witness :
  let pre := log_text "[UnityCrossThreadLogger] <== Deck.GetDeckListsV3 " in
  let frag := log_text "{'mainDeck':[" in
  unterminated frag = true /\
  parse_log_chunk Decoder.json_decode (fun _ => "2024-12-30T12:34:56"%string)
    (pre ++ frag) 0 = [].
Proof.
  intros pre frag. split; [reflexivity |].
  destruct (unterminated_block_tolerance Decoder.json_decode (fun _ => false)
              (fun _ => "2024-12-30T12:34:56"%string) pre frag eq_refl)
    as (_ & _ & H).
  destruct H as (_ & _ & H & _); [vm_compute; discriminate |].
  rewrite H. reflexivity.
Defined.

(** C6 as stated fails after a surplus of closing braces: the opening
    brace of the fragment then brings the depth back to zero, and an
    object nested in the fragment is scanned as a block of its own.  Here
    the text before the fragment has no block, and the buffer yields a
    deck from inside the fragment. *)
Lemma unterminated_fragment_counterexample :
  let pre := log_text "done} " in
  let frag := log_text "{'decks':[{'name':'A','mainDeck':[]}" in
  unterminated frag = true /\
  balance pre = -1 /\
  extract_json_blocks Decoder.json_decode pre = [] /\
  extract_json_blocks Decoder.json_decode (pre ++ frag) =
    [[("name", JStr "A"); ("mainDeck", JArr [])]]%string /\
  parse_log_chunk Decoder.json_decode (fun _ => "2024-12-30T12:34:56"%string)
    (pre ++ frag) 0 =
  [JObj [("id", JNull); ("name", JStr "A"); ("format", JStr "unknown");
         ("description", JStr EmptyString); ("main_deck", JArr []);
         ("sideboard", JArr []); ("commander", JArr []);
         ("timestamp", JStr "2024-12-30T12:34:56")]]%string.
Proof. repeat split; vm_compute; reflexivity. Qed.

(** C2 (amended). Two objects whose text holds no brace besides the
    enclosing pair, each accepted by the decoder, with brace-free text
    before, between and after them: the scan keeps exactly these two
    blocks, in order of appearance. *)
Theorem two_objects_two_blocks
    (json_loads : text -> option json)
    (pre body1 mid body2 post : text) (obj1 obj2 : dict) :
  brace_free pre = true -> brace_free body1 = true ->
  brace_free mid = true -> brace_free body2 = true ->
  brace_free post = true ->
  json_loads (lbrace :: body1 ++ [rbrace]) = Some (JObj obj1) ->
  json_loads (lbrace :: body2 ++ [rbrace]) = Some (JObj obj2) ->
  extract_json_blocks json_loads
    (pre ++ (lbrace :: body1 ++ [rbrace]) ++ mid ++
     (lbrace :: body2 ++ [rbrace]) ++ post) = [obj1; obj2].
Proof.
  intros Hpre Hb1 Hmid Hb2 Hpost Hobj1 Hobj2.
  set (block1 := lbrace :: body1 ++ [rbrace]) in *.
  set (block2 := lbrace :: body2 ++ [rbrace]) in *.
  rewrite extract_json_blocks_spans.
  assert (Hlen1 : length block1 = (length body1 + 2)%nat).
  { unfold block1. simpl. rewrite length_app. simpl. lia. }
  assert (Hlen2 : length block2 = (length body2 + 2)%nat).
  { unfold block2. simpl. rewrite length_app. simpl. lia. }
  assert (Hspans :
    block_spans (pre ++ block1 ++ mid ++ block2 ++ post) =
    [(Z.of_nat (length pre),
      Z.of_nat (length pre) + Z.of_nat (length body1) + 1);
     (Z.of_nat (length (pre ++ block1 ++ mid)),
      Z.of_nat (length (pre ++ block1 ++ mid)) + Z.of_nat (length body2) + 1)]).
  { rewrite block_spans_app, (span_loop_brace_free pre) by assumption.
    rewrite span_loop_app. unfold block1 at 2.
    rewrite span_loop_object by (try assumption; try reflexivity; lia).
    rewrite span_loop_app, (span_loop_brace_free mid) by assumption.
    rewrite span_loop_app. unfold block2 at 2.
    rewrite span_loop_object by (try assumption; try reflexivity; lia).
    rewrite (span_loop_brace_free post) by assumption.
    simpl spans. rewrite !length_app, Hlen1. simpl length.
    do 2 f_equal. f_equal; lia. }
  rewrite Hspans.
  assert (Hslice1 :
    slice (pre ++ block1 ++ mid ++ block2 ++ post) (Z.of_nat (length pre))
      (Z.of_nat (length pre) + Z.of_nat (length body1) + 1 + 1) = block1).
  { replace (Z.of_nat (length pre) + Z.of_nat (length body1) + 1 + 1)
      with (Z.of_nat (length pre + length block1))
      by lia.
    apply slice_middle. }
  assert (Hslice2 :
    slice (pre ++ block1 ++ mid ++ block2 ++ post)
      (Z.of_nat (length (pre ++ block1 ++ mid)))
      (Z.of_nat (length (pre ++ block1 ++ mid)) +
       Z.of_nat (length body2) + 1 + 1) = block2).
  { replace (pre ++ block1 ++ mid ++ block2 ++ post)
      with ((pre ++ block1 ++ mid) ++ block2 ++ post)
      by (rewrite <- !app_assoc; reflexivity).
    replace (Z.of_nat (length (pre ++ block1 ++ mid)) +
             Z.of_nat (length body2) + 1 + 1)
      with (Z.of_nat (length (pre ++ block1 ++ mid) + length block2))
      by lia.
    apply slice_middle. }
  unfold omap, list_omap, decode_block. cbn [fst snd].
  rewrite Hslice1, Hobj1, Hslice2, Hobj2. reflexivity.
Qed.

Lemma two_objects_two_blocks_witness :
  extract_json_blocks Decoder.json_decode
    (log_text "[12:34:56] Game started " ++
     (lbrace :: log_text "'id':'d1','mainDeck':[]" ++ [rbrace]) ++
     log_text " [12:35:00] Deck loaded " ++
     (lbrace :: log_text "'id':'d2','mainDeck':[]" ++ [rbrace]) ++
     log_text " [12:36:00] Game ended") =
  [[("id", JStr "d1"); ("mainDeck", JArr [])];
   [("id", JStr "d2"); ("mainDeck", JArr [])]]%string.
Proof.
  apply two_objects_two_blocks; reflexivity.
Defined.

(** C2 as stated fails: the scan counts every brace.  A closing brace in
    the text before the objects leaves the depth at minus one, and a
    brace inside a string value closes the block early; either way the
    two well-formed, non-nested objects yield no block at all. *)
Lemma two_objects_counterexample :
  Decoder.json_decode (log_text "{'a':1}") = Some (JObj [("a", JInt 1)]%string) /\
  Decoder.json_decode (log_text "{'b':2}") = Some (JObj [("b", JInt 2)]%string) /\
  Decoder.json_decode (log_text "{'a':'}'}") =
    Some (JObj [("a", JStr "}")]%string) /\
  extract_json_blocks Decoder.json_decode
    (log_text "done} " ++ log_text "{'a':1}" ++ log_text " then " ++
     log_text "{'b':2}" ++ log_text " end") = [] /\
  extract_json_blocks Decoder.json_decode
    (log_text "start " ++ log_text "{'a':'}'}" ++ log_text " then " ++
     log_text "{'b':2}" ++ log_text " end") = [].
Proof. repeat split; vm_compute; reflexivity. Qed.

(** ** Classification and expansion *)

Lemma raw_decks_app blocks1 blocks2 :
  raw_decks (blocks1 ++ blocks2) = raw_decks blocks1 ++ raw_decks blocks2.
Proof. unfold raw_decks. apply flat_map_app. Qed.

(** An object without ['decks'], ['mainDeck'] and ['mainBoard'] expands
    to no raw deck. *)
Lemma extract_decks_no_container json_obj :
  contains "decks" json_obj = false ->
  contains "mainDeck" json_obj = false ->
  contains "mainBoard" json_obj = false ->
  extract_decks json_obj = [].
Proof.
  intros Hdecks Hmain Hboard. unfold extract_decks.
  rewrite Hdecks, Hmain, Hboard. reflexivity.
Qed.

Lemma raw_decks_skip json_obj before after :
  extract_decks json_obj = [] ->
  raw_decks (before ++ json_obj :: after) = raw_decks (before ++ after).
Proof.
  intros Hnone. rewrite !raw_decks_app. f_equal.
  unfold raw_decks. simpl. rewrite Hnone.
  destruct (is_deck_data json_obj); reflexivity.
Qed.

(** C10. An object with the key ['name'] and none of ['decks'],
    ['mainDeck'], ['mainBoard'] is classified as deck data, expands to no
    raw deck, and so adds no canonical deck to any batch it is part of. *)
Theorem name_only_object_yields_no_deck
    (clock : nat -> string) (json_obj : dict) :
  contains "name" json_obj = true ->
  contains "decks" json_obj = false ->
  contains "mainDeck" json_obj = false ->
  contains "mainBoard" json_obj = false ->
  is_deck_data json_obj = true /\
  extract_decks json_obj = [] /\
  normalize_from clock 0 (raw_decks [json_obj]) = [] /\
  forall before after,
    normalize_from clock 0 (raw_decks (before ++ json_obj :: after)) =
    normalize_from clock 0 (raw_decks (before ++ after)).
Proof.
  intros Hname Hdecks Hmain Hboard.
  pose proof (extract_decks_no_container _ Hdecks Hmain Hboard) as Hnone.
  assert (Hdata : is_deck_data json_obj = true).
  { unfold is_deck_data, deck_keys. simpl. rewrite Hname.
    rewrite !orb_true_r. reflexivity. }
  repeat split; try assumption.
  - unfold raw_decks. simpl. rewrite Hdata, Hnone. reflexivity.
  - intros before after. rewrite raw_decks_skip by assumption. reflexivity.
Qed.

Lemma name_only_object_yields_no_deck_witness :
  Decoder.json_decode (log_text "{'name':'Mono Green Elves','format':'standard'}") =
    Some (JObj [("name", JStr "Mono Green Elves");
                ("format", JStr "standard")]%string) /\
  is_deck_data [("name", JStr "Mono Green Elves");
                ("format", JStr "standard")]%string = true /\
  extract_decks [("name", JStr "Mono Green Elves");
                 ("format", JStr "standard")]%string = [].
Proof.
  split; [reflexivity |].
  destruct (name_only_object_yields_no_deck (fun _ => "2024-12-30T12:34:56"%string)
              [("name", JStr "Mono Green Elves");
               ("format", JStr "standard")]%string
              eq_refl eq_refl eq_refl eq_refl)
    as (Hdata & Hnone & _).
  split; assumption.
Defined.

(** ** Normalization *)

(** Every deck of a batch is the normalization of some raw deck. *)
Lemma normalize_from_In clock deck_list : forall tick deck,
  In deck (normalize_from clock tick deck_list) ->
  exists now deck_data,
    In deck_data deck_list /\ parse_deck_list now deck_data = Some deck.
Proof.
  induction deck_list as [| deck_data rest IH]; intros tick deck Hin;
    simpl in Hin; [contradiction |].
  destruct (parse_deck_list (clock tick) deck_data) as [deck' |] eqn:Hparse.
  - destruct Hin as [<- | Hin].
    + exists (clock tick), deck_data. split; [left; reflexivity | exact Hparse].
    + destruct (IH _ _ Hin) as (now & raw & Hraw & Hp).
      exists now, raw. split; [right; exact Hraw | exact Hp].
  - destruct (IH _ _ Hin) as (now & raw & Hraw & Hp).
    exists now, raw. split; [right; exact Hraw | exact Hp].
Qed.




Lemma get_absent (d : dict) key : contains key d = false -> get d key = JNull.
Proof.
  unfold contains, get, get_default.
  destruct (Py.lookup key d); [discriminate | reflexivity].
Qed.

Lemma or_truthy a b : truthy a = true -> or_ a b = a.
Proof. unfold or_. intros ->. reflexivity. Qed.

Lemma or_falsy a b : truthy a = false -> or_ a b = b.
Proof. unfold or_. intros ->. reflexivity. Qed.

(** C4 (amended). Normalization resolves each field by
    first-truthy-wins: the id is the first of ['id'], ['deckId'] whose
    value Python counts as true, else whatever ['deckID'] holds; the name
    the first such of ['name'], ['deckName'], else the placeholder; the
    format that of ['format'] if true, else the placeholder.  A later
    candidate is used exactly when every earlier one is absent or holds a
    false value (an absent key reads as [None]). *)
Theorem field_resolution_first_truthy (now : string) (deck_data : dict) :
  exists deck id name format,
    parse_deck_list now (JObj deck_data) = Some (JObj deck) /\
    Py.lookup "id" deck = Some id /\
    Py.lookup "name" deck = Some name /\
    Py.lookup "format" deck = Some format /\
    (truthy (get deck_data "id") = true -> id = get deck_data "id") /\
    (truthy (get deck_data "id") = false ->
     truthy (get deck_data "deckId") = true -> id = get deck_data "deckId") /\
    (truthy (get deck_data "id") = false ->
     truthy (get deck_data "deckId") = false -> id = get deck_data "deckID") /\
    (truthy (get deck_data "name") = true -> name = get deck_data "name") /\
    (truthy (get deck_data "name") = false ->
     truthy (get deck_data "deckName") = true ->
     name = get deck_data "deckName") /\
    (truthy (get deck_data "name") = false ->
     truthy (get deck_data "deckName") = false -> name = JStr "Unnamed Deck") /\
    (truthy (get deck_data "format") = true -> format = get deck_data "format") /\
    (truthy (get deck_data "format") = false -> format = JStr "unknown") /\
    (forall key, contains key deck_data = false ->
                 get deck_data key = JNull /\ truthy (get deck_data key) = false).
Proof.
  eexists _, _, _, _. split; [reflexivity |].
  do 3 (split; [reflexivity |]).
  split; [intros H; rewrite (or_truthy _ _ H); apply or_truthy, H |].
  split; [intros H1 H2; rewrite (or_falsy _ _ H1); apply or_truthy, H2 |].
  split; [intros H1 H2; rewrite (or_falsy _ _ H1); apply or_falsy, H2 |].
  split; [intros H; rewrite (or_truthy _ _ H); apply or_truthy, H |].
  split; [intros H1 H2; rewrite (or_falsy _ _ H1); apply or_truthy, H2 |].
  split; [intros H1 H2; rewrite (or_falsy _ _ H1); apply or_falsy, H2 |].
  split; [apply or_truthy |].
  split; [apply or_falsy |].
  intros key Habsent. rewrite (get_absent _ _ Habsent). split; reflexivity.
Qed.

Lemma field_resolution_first_truthy_witness :
  exists deck,
    parse_deck_list "2024-12-30T12:34:56"
      (JObj [("deckId", JStr "arena-7"); ("deckName", JStr "Elves");
             ("mainBoard", JArr [])]%string) = Some (JObj deck) /\
    Py.lookup "id" deck = Some (JStr "arena-7") /\
    Py.lookup "name" deck = Some (JStr "Elves") /\
    Py.lookup "format" deck = Some (JStr "unknown").
Proof.
  destruct (field_resolution_first_truthy "2024-12-30T12:34:56"
              [("deckId", JStr "arena-7"); ("deckName", JStr "Elves");
               ("mainBoard", JArr [])]%string)
    as (deck & id & name & format & Hparse & Hid & Hname & Hformat &
        _ & Hid2 & _ & _ & Hname2 & _ & _ & Hformat2 & _).
  exists deck. split; [exact Hparse |].
  rewrite Hid, Hname, Hformat.
  rewrite (Hid2 eq_refl eq_refl), (Hname2 eq_refl eq_refl), (Hformat2 eq_refl).
  repeat split.
Defined.

(** C4 as stated fails: a key that is present with an empty value does
    not win.  Here ['id'], ['name'] and ['format'] are all present, and
    the deck takes its id from ['deckId'], its name from ['deckName'] and
    the placeholder for its format. *)
Lemma first_present_counterexample :
  contains "id"
    [("id", JStr EmptyString); ("deckId", JStr "arena-7");
     ("name", JStr EmptyString); ("deckName", JStr "Elves");
     ("format", JStr EmptyString)]%string = true /\
  contains "name"
    [("id", JStr EmptyString); ("deckId", JStr "arena-7");
     ("name", JStr EmptyString); ("deckName", JStr "Elves");
     ("format", JStr EmptyString)]%string = true /\
  contains "format"
    [("id", JStr EmptyString); ("deckId", JStr "arena-7");
     ("name", JStr EmptyString); ("deckName", JStr "Elves");
     ("format", JStr EmptyString)]%string = true /\
  parse_deck_list "2024-12-30T12:34:56"
    (JObj [("id", JStr EmptyString); ("deckId", JStr "arena-7");
           ("name", JStr EmptyString); ("deckName", JStr "Elves");
           ("format", JStr EmptyString)]%string) =
  Some (JObj [("id", JStr "arena-7"); ("name", JStr "Elves");
              ("format", JStr "unknown"); ("description", JStr EmptyString);
              ("main_deck", JArr []); ("sideboard", JArr []);
              ("commander", JArr []);
              ("timestamp", JStr "2024-12-30T12:34:56")]%string).
Proof. repeat split; vm_compute; reflexivity. Qed.




(** The entries of a card list come from its dict elements. *)
Lemma card_entries_In cards entry :
  In entry (card_entries cards) ->
  exists card, In (JObj card) cards /\ entry = card_entry card.
Proof.
  induction cards as [| item cards IH]; simpl; [contradiction |].
  intros Hin.
  destruct item as [| | | | | | card];
    try (destruct (IH Hin) as (card & Hc & He); exists card; auto).
  destruct Hin as [<- | Hin].
  - exists card. auto.
  - destruct (IH Hin) as (card' & Hc & He). exists card'. auto.
Qed.

Lemma listed_In (deck_data : dict) key entries entry :
  In entry (listed deck_data key entries) ->
  exists items,
    Py.lookup key deck_data = Some (JArr items) /\ In entry (entries items).
Proof.
  unfold listed, contains, get, get_default.
  destruct (Py.lookup key deck_data) as [[| | | | | items |] |];
    try contradiction.
  intros Hin. exists items. auto.
Qed.

(** One entry per dict element of a card list, in order. *)
Lemma card_entries_dicts cards :
  card_entries cards = map card_entry (Shape.dicts cards).
Proof.
  induction cards as [| card cards IH]; [reflexivity |].
  destruct card; simpl; rewrite ?IH; reflexivity.
Qed.

Lemma listed_items_of (deck_data : dict) key entries :
  entries [] = [] ->
  listed deck_data key entries = entries (Shape.items_of (get deck_data key)).
Proof.
  intros Hnil. unfold listed, contains, get, get_default.
  destruct (Py.lookup key deck_data) as [[] |]; simpl; auto.
Qed.

(** C8 (amended). In a canonical deck the entries of the main deck and
    of the sideboard stand, one for one and in order, for the dict
    elements of the source list, and each carries the ['quantity'] value
    of its own source card unchanged, of whatever type or sign, and 1
    when that card has no such key; so its quantity is a positive integer
    when the source card holds one or holds none.  Every commander entry
    carries 1. *)
Theorem quantity_copied_or_one (now : string) (deck_data deck : dict) :
  parse_deck_list now (JObj deck_data) = Some (JObj deck) ->
  let source_cards key := Shape.dicts (Shape.items_of (get deck_data key)) in
  let main_key :=
    (if contains "mainDeck" deck_data then "mainDeck" else "mainBoard")%string in
  let copied (card : dict) (entry : json) :=
    exists fields quantity,
      entry = JObj fields /\
      Py.lookup "quantity" fields = Some quantity /\
      (forall v, Py.lookup "quantity" card = Some v -> quantity = v) /\
      (contains "quantity" card = false -> quantity = JInt 1) /\
      ((forall v, Py.lookup "quantity" card = Some v -> positive_int v = true) ->
       positive_int quantity = true) in
  exists main_deck sideboard commander,
    Py.lookup "main_deck" deck = Some (JArr main_deck) /\
    Py.lookup "sideboard" deck = Some (JArr sideboard) /\
    Py.lookup "commander" deck = Some (JArr commander) /\
    Forall2 copied (source_cards main_key) main_deck /\
    Forall2 copied (source_cards "sideboard"%string) sideboard /\
    Forall (fun entry =>
              exists fields,
                entry = JObj fields /\
                Py.lookup "quantity" fields = Some (JInt 1))
           commander.
Proof.
  intros Hparse source_cards main_key copied.
  simpl in Hparse. injection Hparse as <-.
  assert (Hcopied : forall cards,
            Forall2 copied (Shape.dicts cards) (card_entries cards)).
  { intros cards. rewrite card_entries_dicts.
    induction (Shape.dicts cards) as [| card rest IH]; constructor; [| exact IH].
    eexists _, _. split; [reflexivity |]. split; [reflexivity |].
    unfold contains, get_default.
    destruct (Py.lookup "quantity" card) as [v |].
    - split; [intros ? [= <-]; reflexivity |].
      split; [discriminate | auto].
    - split; [discriminate |]. split; reflexivity. }
  eexists _, _, _.
  split; [reflexivity |]. split; [reflexivity |]. split; [reflexivity |].
  rewrite !listed_items_of by reflexivity.
  split; [apply Hcopied |]. split; [apply Hcopied |].
  apply List.Forall_forall. intros entry Hin.
  apply in_map_iff in Hin as (card_id & <- & _).
  eexists. split; reflexivity.
Qed.

Lemma quantity_copied_or_one_witness :
  exists main_deck,
    Py.lookup "main_deck"
      [("id", JStr "test-deck-001"); ("name", JStr "Mono Green Elves");
       ("format", JStr "standard"); ("description", JStr EmptyString);
       ("main_deck",
        JArr [JObj [("card_id", JInt 70001); ("quantity", JInt 4);
                    ("name", JStr "Llanowar Elves")];
              JObj [("card_id", JInt 70002); ("quantity", JInt 1);
                    ("name", JStr "Forest")]]);
       ("sideboard", JArr []);
       ("commander",
        JArr [JObj [("card_id", JInt 9); ("quantity", JInt 1);
                    ("name", JStr "Unknown")]]);
       ("timestamp", JStr "2024-12-30T12:34:56")]%string =
      Some (JArr main_deck) /\
    length main_deck = 2%nat.
Proof.
  destruct (quantity_copied_or_one "2024-12-30T12:34:56"
    [("mainDeck",
      JArr [JObj [("cardId", JInt 70001); ("quantity", JInt 4);
                  ("name", JStr "Llanowar Elves")];
            JStr "not a card";
            JObj [("cardId", JInt 70002); ("name", JStr "Forest")]]);
     ("sideboard", JArr []); ("commandZoneGRPIds", JArr [JInt 9]);
     ("id", JStr "test-deck-001");
     ("name", JStr "Mono Green Elves"); ("format", JStr "standard")]%string
    _ eq_refl)
    as (main_deck & _ & _ & Hmain & _ & _ & Hcopied & _).
  exists main_deck. split; [exact Hmain |].
  apply Forall2_length in Hcopied. rewrite <- Hcopied. reflexivity.
Defined.

(** C8 as stated fails: the quantity is copied without a check.  Read
    through the whole pipeline, a source card with quantity 0 and one
    with a string for quantity give entries with those same values. *)
Lemma quantity_counterexample :
  parse_log_chunk Decoder.json_decode (fun _ => "2024-12-30T12:34:56"%string)
    (log_text "{'mainDeck':[{'cardId':1,'quantity':0},{'cardId':2,'quantity':'four'}]}")
    0 =
  [JObj [("id", JNull); ("name", JStr "Unnamed Deck"); ("format", JStr "unknown");
         ("description", JStr EmptyString);
         ("main_deck",
          JArr [JObj [("card_id", JInt 1); ("quantity", JInt 0);
                      ("name", JStr "Unknown")];
                JObj [("card_id", JInt 2); ("quantity", JStr "four");
                      ("name", JStr "Unknown")]]);
         ("sideboard", JArr []); ("commander", JArr []);
         ("timestamp", JStr "2024-12-30T12:34:56")]]%string /\
  positive_int (JInt 0) = false /\
  positive_int (JStr "four") = false.
Proof. repeat split; vm_compute; reflexivity. Qed.

(** ** Reading the file *)

Lemma parse_log_chunk_empty json_loads clock :
  parse_log_chunk json_loads clock [] 0 = [].
Proof. reflexivity. Qed.

Lemma scan_raises_empty json_raises : scan_raises json_raises [] = false.
Proof. reflexivity. Qed.

Lemma disk_file_fits (on_disk : disk_file) :
  Z.of_nat (length (file_bytes on_disk)) < off_t_limit.
Proof. apply Z.ltb_lt, file_fits. Qed.

Lemma seek_read_plain decode cookie_text bytes from_position :
  0 <= from_position < off_t_limit ->
  seek_read decode cookie_text bytes from_position =
  Some (decode (skipn (Z.to_nat from_position) bytes)).
Proof.
  intros Hplain. unfold seek_read.
  rewrite Z.mod_small by (unfold off_t_limit, cookie_base in *; lia).
  destruct (Z.ltb_spec from_position off_t_limit); [| lia].
  destruct (Z.ltb_spec from_position cookie_base); [reflexivity |].
  unfold off_t_limit, cookie_base in *; lia.
Qed.

(** At a plain position at or past the end nothing is read, whether the
    seek is refused or not. *)
Lemma parse_file_past_end json_loads json_raises clock decode cookie_text
    on_disk from_position :
  decode [] = [] ->
  Z.of_nat (length (file_bytes on_disk)) <= from_position < cookie_base ->
  parse_file json_loads json_raises clock decode cookie_text (Some on_disk)
    from_position = ([], from_position).
Proof.
  intros Hdecode Hpast. unfold parse_file.
  destruct (Z.ltb_spec from_position 0); [reflexivity |].
  unfold seek_read. rewrite Z.mod_small by lia.
  destruct (from_position <? off_t_limit); [| reflexivity].
  destruct (Z.ltb_spec from_position cookie_base); [| lia].
  rewrite skipn_all2 by lia.
  rewrite Hdecode, scan_raises_empty, parse_log_chunk_empty.
  f_equal. lia.
Qed.

(** A call either fails, and then fails the same way whatever the clock,
    or returns a plain position at or past the end of the file. *)
Lemma parse_file_outcome json_loads json_raises clock decode cookie_text
    file from_position :
  (forall clock',
     parse_file json_loads json_raises clock' decode cookie_text file
       from_position = ([], from_position)) \/
  (exists on_disk,
     file = Some on_disk /\
     Z.of_nat (length (file_bytes on_disk)) <=
       snd (parse_file json_loads json_raises clock decode cookie_text file
              from_position) < off_t_limit).
Proof.
  unfold parse_file.
  destruct file as [on_disk |]; [| left; reflexivity].
  destruct (from_position <? 0); [left; reflexivity |].
  destruct (seek_read decode cookie_text (file_bytes on_disk) from_position)
    as [content |] eqn:Hread; [| left; reflexivity].
  destruct (scan_raises json_raises content); [left; reflexivity |].
  right. exists on_disk. split; [reflexivity |]. cbn [snd].
  pose proof (disk_file_fits on_disk) as Hfits.
  unfold seek_read in Hread.
  destruct (Z.ltb_spec (from_position mod cookie_base) off_t_limit);
    [lia | discriminate].
Qed.

(** C7. When the file is missing, [parse_file] returns the empty batch
    and the offset it was given, and [process_log_file] leaves the daemon
    as it was: same position, same ledger, nothing exported.  The next
    call starts from the same position. *)
Theorem missing_stream_keeps_offset
    (json_loads : text -> option json) (json_raises : text -> bool)
    (clock : nat -> string) (decode : list ascii -> text)
    (cookie_text : Z -> list ascii -> option text)
    (str_compound : json -> string)
    (auto_export : bool) (from_position : Z) :
  parse_file json_loads json_raises clock decode cookie_text None
    from_position = ([], from_position) /\
  forall st,
    MTGArenaDaemon.process_log_file json_loads json_raises clock decode
      cookie_text str_compound auto_export None st = st.
Proof.
  split; [reflexivity |].
  intros [position ledger exported].
  unfold MTGArenaDaemon.process_log_file. simpl.
  destruct auto_export; reflexivity.
Qed.

Lemma missing_stream_keeps_offset_witness :
  MTGArenaDaemon.process_log_file Decoder.json_decode (fun _ => false)
    (fun _ => "2024-12-30T12:34:56"%string) (fun bytes => bytes)
    (fun _ _ => None) (fun _ => EmptyString) true None
    {| MTGArenaDaemon.last_position := 127;
       MTGArenaDaemon.exported_decks := {["d1_Test_1"%string]};
       MTGArenaDaemon.exports := [] |} =
  {| MTGArenaDaemon.last_position := 127;
     MTGArenaDaemon.exported_decks := {["d1_Test_1"%string]};
     MTGArenaDaemon.exports := [] |}.
Proof.
  apply (missing_stream_keeps_offset Decoder.json_decode (fun _ => false)
           (fun _ => "2024-12-30T12:34:56"%string) (fun bytes => bytes)
           (fun _ _ => None) (fun _ => EmptyString) true 127).
Defined.

(** C1. Whatever the file holds, or if there is none: when a call of
    [parse_file] at [from_position] returns [(decks, new_offset)] and the
    file stays as it is, a call at [new_offset] returns the empty batch
    and [new_offset] again.  The byte decoder maps no bytes to the empty
    text. *)
Theorem parse_file_idempotent
    (json_loads : text -> option json) (json_raises : text -> bool)
    (clock clock' : nat -> string) (decode : list ascii -> text)
    (cookie_text : Z -> list ascii -> option text)
    (file : option disk_file)
    (from_position : Z) (decks : list json) (new_offset : Z) :
  decode [] = [] ->
  parse_file json_loads json_raises clock decode cookie_text file
    from_position = (decks, new_offset) ->
  parse_file json_loads json_raises clock' decode cookie_text file
    new_offset = ([], new_offset).
Proof.
  intros Hdecode Hcall.
  destruct (parse_file_outcome json_loads json_raises clock decode
              cookie_text file from_position) as [Hfails | (on_disk & -> & Hrange)].
  - rewrite Hfails in Hcall. injection Hcall as <- <-. apply Hfails.
  - rewrite Hcall in Hrange. cbn [snd] in Hrange.
    apply parse_file_past_end; [exact Hdecode |].
    unfold off_t_limit, cookie_base in *. lia.
Qed.

Lemma parse_file_idempotent_witness :
  parse_file Decoder.json_decode (fun _ => false)
    (fun _ => "2024-12-30T12:34:56"%string) (fun bytes => bytes)
    (fun _ _ => None)
    (Some (DiskFile (log_text "[12:34:56] {'mainDeck':[{'cardId':1,'quantity':4,'name':'Forest'}],'sideboard':[],'id':'d1','name':'Test','format':'standard'} ") eq_refl))
    0 =
  ([JObj [("id", JStr "d1"); ("name", JStr "Test"); ("format", JStr "standard");
          ("description", JStr EmptyString);
          ("main_deck",
           JArr [JObj [("card_id", JInt 1); ("quantity", JInt 4);
                       ("name", JStr "Forest")]]);
          ("sideboard", JArr []); ("commander", JArr []);
          ("timestamp", JStr "2024-12-30T12:34:56")]]%string, 127) /\
  parse_file Decoder.json_decode (fun _ => false)
    (fun _ => "2024-12-30T12:34:57"%string) (fun bytes => bytes)
    (fun _ _ => None)
    (Some (DiskFile (log_text "[12:34:56] {'mainDeck':[{'cardId':1,'quantity':4,'name':'Forest'}],'sideboard':[],'id':'d1','name':'Test','format':'standard'} ") eq_refl))
    127 = ([], 127).
Proof.
  assert (H : parse_file Decoder.json_decode (fun _ => false)
    (fun _ => "2024-12-30T12:34:56"%string) (fun bytes => bytes)
    (fun _ _ => None)
    (Some (DiskFile (log_text "[12:34:56] {'mainDeck':[{'cardId':1,'quantity':4,'name':'Forest'}],'sideboard':[],'id':'d1','name':'Test','format':'standard'} ") eq_refl))
    0 =
  ([JObj [("id", JStr "d1"); ("name", JStr "Test"); ("format", JStr "standard");
          ("description", JStr EmptyString);
          ("main_deck",
           JArr [JObj [("card_id", JInt 1); ("quantity", JInt 4);
                       ("name", JStr "Forest")]]);
          ("sideboard", JArr []); ("commander", JArr []);
          ("timestamp", JStr "2024-12-30T12:34:56")]]%string, 127))
    by (vm_compute; reflexivity).
  split; [exact H |].
  exact (parse_file_idempotent _ _ _ _ _ _ _ _ _ _ eq_refl H).
Defined.

(** ** Deduplication *)

Import MTGArenaDaemon.

Lemma export_new_seen str_compound deck fingerprint rest st :
  get_deck_id str_compound deck = Some fingerprint ->
  contains "name" deck = true ->
  fingerprint ∈ exported_decks st ->
  export_new str_compound (JObj deck :: rest) st =
  export_new str_compound rest st.
Proof.
  intros Hkey Hname Hseen. simpl. rewrite Hkey, Hname.
  destruct (decide _) as [_ | Hnot]; [reflexivity | contradiction].
Qed.

Lemma export_new_fresh str_compound deck fingerprint rest st :
  get_deck_id str_compound deck = Some fingerprint ->
  contains "name" deck = true ->
  fingerprint ∉ exported_decks st ->
  export_new str_compound (JObj deck :: rest) st =
  export_new str_compound rest
    {| last_position := last_position st;
       exported_decks := {[fingerprint]} ∪ exported_decks st;
       exports := exports st ++ [JObj deck] |}.
Proof.
  intros Hkey Hname Hnew. simpl. rewrite Hkey, Hname.
  destruct (decide _) as [Hseen | _]; [contradiction | reflexivity].
Qed.



(** ** The scenarios of the specification and of [test_components.py] *)

(** The end-to-end scenario: one block, one canonical deck. *)
Example end_to_end_scenario :
  parse_log_chunk Decoder.json_decode (fun _ => "2024-12-30T12:34:56"%string)
    (log_text "{'mainDeck':[{'cardId':1,'quantity':4,'name':'Forest'}],'sideboard':[],'id':'d1','name':'Test','format':'standard'}")
    0 =
  [JObj [("id", JStr "d1"); ("name", JStr "Test"); ("format", JStr "standard");
         ("description", JStr EmptyString);
         ("main_deck",
          JArr [JObj [("card_id", JInt 1); ("quantity", JInt 4);
                      ("name", JStr "Forest")]]);
         ("sideboard", JArr []); ("commander", JArr []);
         ("timestamp", JStr "2024-12-30T12:34:56")]]%string.
Proof. vm_compute. reflexivity. Qed.

(** The daemon on that stream: the first pass exports the deck and
    records its fingerprint, the second pass over the unmodified stream
    changes nothing. *)
Example second_scan_yields_nothing :
  let stream :=
    Some (DiskFile (log_text "{'mainDeck':[{'cardId':1,'quantity':4,'name':'Forest'}],'sideboard':[],'id':'d1','name':'Test','format':'standard'}") eq_refl) in
  let pass :=
    process_log_file Decoder.json_decode (fun _ => false)
      (fun _ => "2024-12-30T12:34:56"%string) (fun bytes => bytes)
      (fun _ _ => None) (fun _ => EmptyString) true stream in
  let first :=
    pass {| last_position := 0; exported_decks := ∅; exports := [] |} in
  last_position first = 115 /\
  elements (exported_decks first) = ["d1_Test_1"%string] /\
  length (exports first) = 1%nat /\
  last_position (pass first) = 115 /\
  elements (exported_decks (pass first)) = ["d1_Test_1"%string] /\
  exports (pass first) = exports first.
Proof. vm_compute. repeat split. Qed.

(** The sample log of [test_components.py]: two decks between log
    lines, found in order. *)
Example sample_log_two_decks :
  map (fun deck =>
         match deck with
         | JObj fields => (get fields "id", get fields "name",
                           len (get fields "main_deck"),
                           len (get fields "sideboard"))
         | _ => (JNull, JNull, None, None)
         end)
    (parse_log_chunk Decoder.json_decode (fun _ => "2024-12-30T12:34:56"%string)
       (log_text "[2024-12-30 12:34:56] Game started {'mainDeck':[{'cardId':70001,'quantity':4,'name':'Llanowar Elves'},{'cardId':70002,'quantity':4,'name':'Forest'},{'cardId':70003,'quantity':3,'name':'Elvish Archdruid'}],'sideboard':[{'cardId':70100,'quantity':2,'name':'Heroic Intervention'}],'id':'test-deck-001','name':'Mono Green Elves','format':'standard'} [2024-12-30 12:35:00] Deck loaded {'mainDeck':[{'cardId':80001,'quantity':4,'name':'Lightning Bolt'},{'cardId':80002,'quantity':4,'name':'Mountain'},{'cardId':80003,'quantity':3,'name':'Goblin Guide'}],'sideboard':[{'cardId':80100,'quantity':2,'name':'Rending Volley'}],'id':'test-deck-002','name':'Red Deck Wins','format':'standard'} [2024-12-30 12:36:00] Game ended")
       0) =
  [(JStr "test-deck-001", JStr "Mono Green Elves", Some 3, Some 1);
   (JStr "test-deck-002", JStr "Red Deck Wins", Some 3, Some 1)]%string.
Proof. vm_compute. reflexivity. Qed.

(** * Further properties *)

Import Shape DeckExporter.

(** ** The scan: which regions are decoded *)

Lemma brace_delta_rbrace_iff char :
  brace_delta char = -1 <-> char = rbrace.
Proof.
  unfold brace_delta. split.
  - destruct (Ascii.eqb char lbrace); [discriminate |].
    destruct (Ascii.eqb_spec char rbrace); [auto | discriminate].
  - intros ->. reflexivity.
Qed.

Lemma brace_delta_cases char :
  (char = lbrace /\ brace_delta char = 1) \/
  (char = rbrace /\ brace_delta char = -1) \/
  (char <> lbrace /\ char <> rbrace /\ brace_delta char = 0).
Proof.
  unfold brace_delta.
  destruct (Ascii.eqb_spec char lbrace); [auto |].
  destruct (Ascii.eqb_spec char rbrace); auto.
Qed.

Lemma balance_snoc s char : balance (s ++ [char]) = balance s + brace_delta char.
Proof. induction s as [| c s IH]; simpl; lia. Qed.

Lemma stays_open_snoc s : forall level char,
  stays_open level (s ++ [char]) =
  stays_open level s && (0 <? level + balance s + brace_delta char).
Proof.
  induction s as [| c s IH]; intros level char; simpl.
  - rewrite andb_true_r. f_equal. lia.
  - rewrite IH, andb_assoc. do 2 f_equal. lia.
Qed.

Lemma closes_cons char s level :
  s <> [] ->
  closes level (char :: s) =
  (0 <? level + brace_delta char) && closes (level + brace_delta char) s.
Proof. destruct s; [contradiction | reflexivity]. Qed.

Lemma closes_snoc s : forall level,
  stays_open level s = true -> level + balance s = 1 ->
  closes level (s ++ [rbrace]) = true.
Proof.
  induction s as [| c s IH]; intros level Hopen Hbal; simpl in Hopen, Hbal.
  - simpl. change (brace_delta rbrace) with (-1). apply Z.eqb_eq. lia.
  - apply andb_true_iff in Hopen as [Hpos Hopen].
    change ((c :: s) ++ [rbrace]) with (c :: s ++ [rbrace]).
    rewrite closes_cons by (destruct s; discriminate).
    rewrite Hpos. simpl. apply IH; [assumption | lia].
Qed.

(** The part of the text from a recorded start up to the current index,
    one character further. *)
Lemma open_region_extend done char start level :
  0 <= start < Z.of_nat (length done) ->
  unterminated (skipn (Z.to_nat start) done) = true ->
  balance (skipn (Z.to_nat start) done) = level ->
  1 <= level + brace_delta char ->
  unterminated (skipn (Z.to_nat start) (done ++ [char])) = true /\
  balance (skipn (Z.to_nat start) (done ++ [char])) = level + brace_delta char.
Proof.
  intros Hstart Hopen Hbal Hpos.
  rewrite skipn_app.
  replace (Z.to_nat start - length done)%nat with 0%nat by lia.
  simpl skipn. rewrite balance_snoc, Hbal. split; [| reflexivity].
  destruct (skipn (Z.to_nat start) done) as [| c region] eqn:Hregion;
    [discriminate |].
  unfold unterminated in *. simpl app.
  apply andb_true_iff in Hopen as [Hc Hopen].
  rewrite Hc. simpl andb.
  change (c :: region ++ [char]) with ((c :: region) ++ [char]).
  rewrite stays_open_snoc.
  simpl in Hopen, Hbal. apply andb_true_iff in Hopen as [Hfirst Hrest].
  rewrite Hfirst, Hrest. simpl.
  apply Z.ltb_lt. lia.
Qed.

Lemma slice_up_to_here {A} (done rest : list A) (x : A) a :
  0 <= a <= Z.of_nat (length done) ->
  slice (done ++ x :: rest) a (Z.of_nat (length done) + 1) =
  skipn (Z.to_nat a) done ++ [x].
Proof.
  intros Ha.
  rewrite slice_firstn_skipn by (rewrite ?length_app; simpl length; lia).
  rewrite skipn_app.
  replace (Z.to_nat a - length done)%nat with 0%nat by lia.
  simpl skipn.
  change (x :: rest) with ([x] ++ rest). rewrite app_assoc.
  apply take_app_length'.
  rewrite length_app, length_skipn. simpl. lia.
Qed.

Lemma matched_closed_region region :
  unterminated region = true -> balance region = 1 ->
  matched (region ++ [rbrace]) = true.
Proof.
  destruct region as [| c region]; [discriminate |].
  unfold unterminated, matched. simpl.
  intros H Hbal. apply andb_true_iff in H as [Hc H].
  apply andb_true_iff in H as [_ Hopen].
  rewrite Hc. simpl.
  apply Ascii.eqb_eq in Hc. subst c.
  change (brace_delta lbrace) with 1 in *.
  apply closes_snoc; [assumption | lia].
Qed.

(** Every block closed by the loop is a matched region of the text. *)
Lemma span_loop_matched rest : forall done st,
  span_inv (Z.of_nat (length done)) st ->
  (span_start st <> -1 ->
   0 <= span_start st /\
   unterminated (skipn (Z.to_nat (span_start st)) done) = true /\
   balance (skipn (Z.to_nat (span_start st)) done) = span_level st) ->
  exists new,
    spans (span_loop (Z.of_nat (length done)) rest st) = spans st ++ new /\
    Forall (fun span =>
              matched (slice (done ++ rest) (fst span) (snd span + 1)) = true)
           new.
Proof.
  induction rest as [| char rest IH]; intros done st Hinv Hopen;
    simpl span_loop.
  - exists []. rewrite app_nil_r. auto.
  - set (i := Z.of_nat (length done)) in *.
    assert (Hi : 0 <= i) by lia.
    pose proof (span_char_inv i char st Hi Hinv) as Hinv'.
    pose proof (span_char_level i char st) as Hlevel.
    replace (i + 1) with (Z.of_nat (length (done ++ [char]))) in *
      by (rewrite length_app; simpl; lia).
    destruct Hinv as [Hlt Hpos].
    assert (Hstep :
      (spans (span_char i char st) = spans st /\
       (span_start (span_char i char st) = span_start st \/
        span_start (span_char i char st) = i /\ char = lbrace)) \/
      (spans (span_char i char st) = spans st ++ [(span_start st, i)] /\
       span_start st <> -1 /\ span_start (span_char i char st) = -1 /\
       char = rbrace /\ span_level st = 1)).
    { unfold span_char.
      destruct (Ascii.eqb_spec char lbrace) as [-> |]; simpl.
      { left. split; [reflexivity |].
        destruct (Z.eqb_spec (span_level st) 0); auto. }
      destruct (Ascii.eqb_spec char rbrace) as [-> |]; simpl; [| auto].
      destruct (Z.eqb_spec (span_level st - 1) 0); simpl; [| auto].
      destruct (Z.eqb_spec (span_start st) (-1)); simpl; [auto |].
      right. repeat split; auto. lia. }
    destruct (IH (done ++ [char]) (span_char i char st) Hinv') as (new1 & Heq & Hall).
    { intros Hset.
      destruct Hstep as [(_ & [Hsame | [Hnew ->]]) | (_ & _ & Hreset & _)];
        [| | contradiction].
      - rewrite Hsame in *.
        destruct (Hopen Hset) as (Hge & Hregion & Hbal).
        split; [assumption |].
        rewrite Hlevel. destruct Hinv' as [_ Hpos'].
        apply open_region_extend; try assumption; [lia |].
        rewrite <- Hlevel. apply Hpos'. rewrite Hsame. assumption.
      - rewrite Hnew. split; [lia |].
        rewrite Hlevel. unfold i. rewrite Nat2Z.id, drop_app_length.
        fold i.
        assert (Hzero : span_level st = 0).
        { destruct (span_char_cases i lbrace st) as [(_ & [Hs | [_ Hl]]) | (_ & _ & Hs)];
            [| assumption |].
          - rewrite Hnew in Hs. lia.
          - rewrite Hnew in Hs. lia. }
        rewrite Hzero. split; reflexivity. }
    rewrite <- app_assoc in Hall. simpl app in Hall.
    destruct Hstep as [(Hsp & _) | (Hsp & Hne & _ & -> & Hone)].
    + exists new1. rewrite Heq, Hsp. auto.
    + exists ((span_start st, i) :: new1).
      rewrite Heq, Hsp, <- app_assoc. split; [reflexivity |].
      constructor; [| exact Hall].
      destruct (Hopen Hne) as (Hge & Hregion & Hbal). simpl fst. simpl snd.
      unfold i. rewrite slice_up_to_here by lia.
      apply matched_closed_region; [assumption | lia].
Qed.

Lemma in_order_weaken candidates : forall lo lo',
  lo' <= lo -> in_order lo candidates -> in_order lo' candidates.
Proof.
  destruct candidates as [| [a b] rest]; simpl; [auto |].
  intros lo lo' Hle (Ha & Hab & Hrest). repeat split; [lia | lia | assumption].
Qed.

(** The blocks closed by the loop follow one another without overlap. *)
Lemma span_loop_in_order rest : forall i st,
  0 <= i -> span_inv i st ->
  exists new,
    spans (span_loop i rest st) = spans st ++ new /\
    in_order (if span_start st =? -1 then i else span_start st) new.
Proof.
  induction rest as [| char rest IH]; intros i st Hi Hinv; simpl span_loop.
  - exists []. rewrite app_nil_r. simpl. auto.
  - destruct (IH (i + 1) (span_char i char st)) as (new1 & Heq & Horder);
      [lia | apply span_char_inv; assumption |].
    destruct Hinv as [Hlt Hpos].
    destruct (span_char_cases i char st)
      as [(Hsp & Hs) | (Hsp & Hne & Hreset)].
    + exists new1. rewrite Heq, Hsp. split; [reflexivity |].
      eapply in_order_weaken; [| exact Horder].
      destruct (Z.eqb_spec (span_start st) (-1));
        destruct (Z.eqb_spec (span_start (span_char i char st)) (-1)); lia.
    + exists ((span_start st, i) :: new1).
      rewrite Heq, Hsp, <- app_assoc. split; [reflexivity |].
      rewrite Hreset in Horder. simpl in Horder. simpl.
      destruct (Z.eqb_spec (span_start st) (-1)); [contradiction |].
      repeat split; [lia | lia | assumption].
Qed.

(** X1. Whatever the text, the regions [extract_json_blocks] hands to the
    decoder are matched regions (an opening brace up to the closing brace
    that brings the depth back to zero for the first time), and they
    follow one another in the text without overlap. *)
Theorem candidates_are_matched_regions
    (json_loads : text -> option json) (log_content : text) :
  extract_json_blocks json_loads log_content =
    omap (decode_block json_loads log_content) (block_spans log_content) /\
  Forall (fun span =>
            matched (slice log_content (fst span) (snd span + 1)) = true)
         (block_spans log_content) /\
  in_order 0 (block_spans log_content).
Proof.
  split; [apply extract_json_blocks_spans |].
  unfold block_spans. split.
  - destruct (span_loop_matched log_content [] span_init) as (new & Heq & Hall).
    + apply span_inv_init.
    + intros H. exfalso. apply H. reflexivity.
    + change (Z.of_nat (length (@nil ascii))) with 0 in Heq.
      simpl app in Hall. rewrite Heq. exact Hall.
  - destruct (span_loop_in_order log_content 0 span_init) as (new & Heq & Horder);
      [lia | apply span_inv_init |].
    simpl in *. rewrite Heq. exact Horder.
Qed.

(** Inside an open block, a character that leaves the depth positive
    changes nothing but the depth. *)
Lemma span_char_inside i char st :
  1 <= span_level st -> 0 < span_level st + brace_delta char ->
  span_char i char st =
  {| span_level := span_level st + brace_delta char;
     span_start := span_start st;
     spans := spans st |}.
Proof.
  intros Hlevel Hpos. unfold span_char, brace_delta in *.
  destruct (Ascii.eqb char lbrace).
  { destruct (Z.eqb_spec (span_level st) 0); [lia | reflexivity]. }
  destruct (Ascii.eqb char rbrace).
  - destruct (Z.eqb_spec (span_level st - 1) 0); [lia |]. reflexivity.
  - destruct st. simpl. f_equal. lia.
Qed.

Lemma span_loop_closes s : forall i st,
  1 <= span_level st -> span_start st <> -1 ->
  closes (span_level st) s = true ->
  span_loop i s st =
  {| span_level := 0;
     span_start := -1;
     spans := spans st ++ [(span_start st, i + Z.of_nat (length s) - 1)] |}.
Proof.
  induction s as [| char s IH]; intros i st Hlevel Hstart Hcloses;
    [discriminate |].
  destruct s as [| char' s].
  - simpl in Hcloses. apply Z.eqb_eq in Hcloses.
    assert (Hdelta : brace_delta char = -1)
      by (destruct (brace_delta_cases char) as [[_ H] | [[_ H] | (_ & _ & H)]]; lia).
    apply brace_delta_rbrace_iff in Hdelta. subst char.
    simpl. unfold span_char. simpl.
    change (brace_delta rbrace) with (-1) in Hcloses.
    destruct (Z.eqb_spec (span_level st - 1) 0); [| lia].
    destruct (Z.eqb_spec (span_start st) (-1)); [contradiction |]. simpl.
    f_equal; [lia |]. do 3 f_equal. lia.
  - rewrite closes_cons in Hcloses by discriminate.
    apply andb_true_iff in Hcloses as [Hpos Hcloses].
    apply Z.ltb_lt in Hpos.
    change (span_loop i (char :: char' :: s) st)
      with (span_loop (i + 1) (char' :: s) (span_char i char st)).
    rewrite span_char_inside by assumption.
    rewrite IH; simpl span_level; simpl span_start; simpl spans;
      [| lia | assumption | assumption].
    do 4 f_equal. simpl length. lia.
Qed.

(** The one candidate of a matched region between brace-free text. *)
Lemma block_spans_matched pre block post :
  brace_free pre = true -> matched block = true -> brace_free post = true ->
  block_spans (pre ++ block ++ post) =
  [(Z.of_nat (length pre),
    Z.of_nat (length pre) + Z.of_nat (length block) - 1)].
Proof.
  intros Hpre Hblock Hpost.
  rewrite block_spans_app, (span_loop_brace_free pre) by assumption.
  rewrite span_loop_app.
  destruct block as [| char rest]; [discriminate |].
  unfold matched in Hblock. apply andb_true_iff in Hblock as [Hchar Hrest].
  apply Ascii.eqb_eq in Hchar. subst char.
  change (span_loop (Z.of_nat (length pre)) (lbrace :: rest) span_init)
    with (span_loop (Z.of_nat (length pre) + 1) rest
            {| span_level := 1;
               span_start := Z.of_nat (length pre);
               spans := [] |}).
  rewrite (span_loop_closes rest);
    [| cbn [span_level]; lia | cbn [span_start]; lia | assumption].
  rewrite (span_loop_brace_free post) by assumption.
  simpl. do 3 f_equal. lia.
Qed.

(** X2. A matched region between brace-free text is scanned as one
    block: nested objects inside it are not emitted on their own, and the
    block is kept exactly when the decoder returns an object for it. *)
Theorem nested_block_is_one_block
    (json_loads : text -> option json) (pre block post : text) :
  brace_free pre = true -> matched block = true -> brace_free post = true ->
  extract_json_blocks json_loads (pre ++ block ++ post) =
  match json_loads block with
  | Some (JObj json_obj) => [json_obj]
  | _ => []
  end.
Proof.
  intros Hpre Hblock Hpost.
  rewrite extract_json_blocks_spans, block_spans_matched by assumption.
  unfold omap, list_omap, decode_block. cbn [fst snd].
  replace (Z.of_nat (length pre) + Z.of_nat (length block) - 1 + 1)
    with (Z.of_nat (length pre + length block)) by lia.
  rewrite slice_middle.
  destruct (json_loads block) as [[] |]; reflexivity.
Qed.

Lemma nested_block_is_one_block_witness :
  extract_json_blocks Decoder.json_decode
    (log_text "[12:34:56] decks " ++
     log_text "{'decks':[{'mainDeck':[]},{'mainDeck':[]}]}" ++
     log_text " done") =
  [[("decks", JArr [JObj [("mainDeck", JArr [])];
                    JObj [("mainDeck", JArr [])]])]]%string.
Proof.
  rewrite nested_block_is_one_block by reflexivity. reflexivity.
Defined.

Lemma span_loop_prepend rest : forall i level start earlier later,
  span_loop i rest
    {| span_level := level; span_start := start; spans := earlier ++ later |} =
  {| span_level :=
       span_level (span_loop i rest
         {| span_level := level; span_start := start; spans := later |});
     span_start :=
       span_start (span_loop i rest
         {| span_level := level; span_start := start; spans := later |});
     spans :=
       earlier ++
       spans (span_loop i rest
         {| span_level := level; span_start := start; spans := later |}) |}.
Proof.
  induction rest as [| char rest IH]; intros i level start earlier later;
    simpl span_loop; [reflexivity |].
  unfold span_char. simpl.
  destruct (Ascii.eqb char lbrace); [apply IH |].
  destruct (Ascii.eqb char rbrace); [| apply IH].
  destruct (_ && _); [| apply IH].
  rewrite <- app_assoc. apply IH.
Qed.

Lemma span_char_shift k i char st :
  0 <= k -> 0 <= i -> -1 <= span_start st ->
  span_char (i + k) char (shift_state k st) = shift_state k (span_char i char st) /\
  -1 <= span_start (span_char i char st).
Proof.
  intros Hk Hi Hstart. unfold span_char, shift_state.
  cbn [span_level span_start spans].
  destruct (Ascii.eqb char lbrace).
  { destruct (Z.eqb_spec (span_level st) 0); cbn [span_level span_start spans].
    - destruct (Z.eqb_spec i (-1)); [lia |]. split; [reflexivity | lia].
    - split; [reflexivity | lia]. }
  destruct (Ascii.eqb char rbrace); [| split; [reflexivity | lia]].
  destruct (Z.eqb_spec (span_start st) (-1)) as [Hnone | Hsome].
  - change (-1 =? -1) with true. rewrite !andb_false_r.
    cbn [span_level span_start spans]. rewrite Hnone.
    change (-1 =? -1) with true. split; [reflexivity | lia].
  - destruct (Z.eqb_spec (span_start st + k) (-1)); [lia |].
    destruct (Z.eqb_spec (span_level st - 1) 0);
      cbn [negb andb span_level span_start spans].
    + change (-1 =? -1) with true. rewrite map_app.
      split; [reflexivity | lia].
    + destruct (Z.eqb_spec (span_start st) (-1)); [contradiction |].
      split; [reflexivity | lia].
Qed.

Lemma span_loop_shift k rest : forall i st,
  0 <= k -> 0 <= i -> -1 <= span_start st ->
  span_loop (i + k) rest (shift_state k st) =
  shift_state k (span_loop i rest st).
Proof.
  induction rest as [| char rest IH]; intros i st Hk Hi Hstart;
    simpl span_loop; [reflexivity |].
  destruct (span_char_shift k i char st Hk Hi Hstart) as [Hstep Hstart'].
  rewrite Hstep.
  replace (i + k + 1) with (i + 1 + k) by lia.
  apply IH; [assumption | lia | assumption].
Qed.

(** The candidates of a text that follows a text of balance zero. *)
Lemma block_spans_balanced_app pre post :
  balance pre = 0 ->
  block_spans (pre ++ post) =
  block_spans pre ++
  map (shift_span (Z.of_nat (length pre))) (block_spans post).
Proof.
  intros Hbal. rewrite block_spans_app. unfold block_spans.
  pose proof (span_loop_level pre 0 span_init) as Hlevel.
  pose proof (span_loop_inv pre 0 span_init (Z.le_refl 0) span_inv_init)
    as [_ Hpos].
  destruct (span_loop 0 pre span_init) as [level start found].
  simpl in *.
  assert (level = 0) by lia. subst level.
  assert (start = -1) by (destruct (Z.eq_dec start (-1)); [assumption | lia]).
  subst start.
  rewrite <- (app_nil_r found) at 1.
  rewrite span_loop_prepend. cbn [spans]. f_equal.
  rewrite Hbal. change (0 + 0) with 0.
  assert (Hshift :
    span_loop (Z.of_nat (length pre)) post
      {| span_level := 0; span_start := -1; spans := [] |} =
    shift_state (Z.of_nat (length pre)) (span_loop 0 post span_init)).
  { apply (span_loop_shift (Z.of_nat (length pre)) post 0 span_init);
      simpl; lia. }
  rewrite Hshift. reflexivity.
Qed.

Lemma slice_app_r {A} (s t : list A) a b :
  0 <= a <= b -> b <= Z.of_nat (length t) ->
  slice (s ++ t) (a + Z.of_nat (length s)) (b + Z.of_nat (length s)) =
  slice t a b.
Proof.
  intros Hab Hb.
  rewrite !slice_firstn_skipn by (rewrite ?length_app; lia).
  replace (b + Z.of_nat (length s) - (a + Z.of_nat (length s)))
    with (b - a) by lia.
  replace (Z.to_nat (a + Z.of_nat (length s)))
    with (length s + Z.to_nat a)%nat by lia.
  rewrite drop_app_add'; reflexivity.
Qed.

Lemma omap_decode_block_shift json_loads s t (candidates : list (Z * Z)) :
  Forall (fun span => 0 <= fst span <= snd span /\
                      snd span < Z.of_nat (length t)) candidates ->
  omap (decode_block json_loads (s ++ t))
       (map (shift_span (Z.of_nat (length s))) candidates) =
  omap (decode_block json_loads t) candidates.
Proof.
  induction 1 as [| [a b] candidates Hspan _ IH]; [reflexivity |].
  simpl in Hspan.
  change ((a, b) :: candidates) with ([(a, b)] ++ candidates).
  rewrite map_app, !omap_app, IH. f_equal.
  unfold omap, list_omap, decode_block, shift_span. cbn [map fst snd].
  replace (b + Z.of_nat (length s) + 1) with (b + 1 + Z.of_nat (length s))
    by lia.
  rewrite slice_app_r by lia. reflexivity.
Qed.

(** X3. After a text in which opening and closing braces are equal in
    number, the scan starts afresh: the blocks of the whole are the
    blocks of that text followed by the blocks of the rest. *)
Theorem scan_of_balanced_concatenation
    (json_loads : text -> option json) (pre post : text) :
  balance pre = 0 ->
  extract_json_blocks json_loads (pre ++ post) =
  extract_json_blocks json_loads pre ++ extract_json_blocks json_loads post.
Proof.
  intros Hbal.
  rewrite !extract_json_blocks_spans, block_spans_balanced_app by assumption.
  rewrite omap_app. f_equal.
  - apply omap_decode_block_prefix, block_spans_bounds.
  - apply omap_decode_block_shift, block_spans_bounds.
Qed.

Lemma scan_of_balanced_concatenation_witness :
  extract_json_blocks Decoder.json_decode
    (log_text "{'a':{'b':1}} note " ++ log_text "{'c':2}") =
  [[("a", JObj [("b", JInt 1)])]; [("c", JInt 2)]]%string.
Proof.
  rewrite scan_of_balanced_concatenation by reflexivity. reflexivity.
Defined.

(** While the depth is never positive no start is recorded, so no block
    is closed. *)
Lemma span_loop_stays_low rest : forall i st,
  span_start st = -1 -> stays_low (span_level st) rest = true ->
  spans (span_loop i rest st) = spans st.
Proof.
  induction rest as [| char rest IH]; intros i st Hstart Hlow;
    simpl in *; [reflexivity |].
  apply andb_true_iff in Hlow as [Hle Hlow]. apply Z.leb_le in Hle.
  assert (Hstep : span_char i char st =
    {| span_level := span_level st + brace_delta char;
       span_start := -1;
       spans := spans st |}).
  { unfold span_char, brace_delta in *. rewrite Hstart.
    destruct (Ascii.eqb char lbrace).
    { destruct (Z.eqb_spec (span_level st) 0); [lia | reflexivity]. }
    destruct (Ascii.eqb char rbrace).
    - rewrite andb_false_r. reflexivity.
    - destruct st. simpl in *. subst. f_equal. lia. }
  rewrite Hstep. rewrite IH; [reflexivity | reflexivity | assumption].
Qed.

(** X4. Once closing braces outnumber opening ones the scan does not
    recover by itself: after a text of balance [-k] (or zero), a text
    whose depth never exceeds [k] yields no block.  One stray closing
    brace hides every flat object that follows it. *)
Theorem surplus_closing_brace_hides_blocks
    (json_loads : text -> option json) (clock : nat -> string)
    (pre post : text) :
  balance pre <= 0 ->
  stays_low (balance pre) post = true ->
  extract_json_blocks json_loads (pre ++ post) =
    extract_json_blocks json_loads pre /\
  parse_log_chunk json_loads clock (pre ++ post) 0 =
    parse_log_chunk json_loads clock pre 0.
Proof.
  intros Hbal Hlow.
  assert (Hspans : block_spans (pre ++ post) = block_spans pre).
  { rewrite block_spans_app. unfold block_spans.
    pose proof (span_loop_level pre 0 span_init) as Hlevel.
    pose proof (span_loop_inv pre 0 span_init (Z.le_refl 0) span_inv_init)
      as [_ Hpos].
    apply span_loop_stays_low.
    - destruct (Z.eq_dec (span_start (span_loop 0 pre span_init)) (-1));
        [assumption |].
      simpl in Hlevel. lia.
    - rewrite Hlevel. exact Hlow. }
  assert (Hblocks : extract_json_blocks json_loads (pre ++ post) =
                    extract_json_blocks json_loads pre).
  { rewrite !extract_json_blocks_spans, Hspans.
    apply omap_decode_block_prefix, block_spans_bounds. }
  split; [exact Hblocks |].
  unfold parse_log_chunk. rewrite !slice_from_zero, Hblocks. reflexivity.
Qed.

Lemma surplus_closing_brace_hides_blocks_witness :
  extract_json_blocks Decoder.json_decode (log_text "{'mainDeck':[]} {'mainBoard':[]}") =
    [[("mainDeck", JArr [])]; [("mainBoard", JArr [])]]%string /\
  extract_json_blocks Decoder.json_decode
    (log_text "done} " ++ log_text "{'mainDeck':[]} {'mainBoard':[]}") = [].
Proof.
  split; [reflexivity |].
  destruct (surplus_closing_brace_hides_blocks Decoder.json_decode
              (fun _ => EmptyString) (log_text "done} ")
              (log_text "{'mainDeck':[]} {'mainBoard':[]}")) as [H _].
  - vm_compute. discriminate.
  - reflexivity.
  - rewrite H. reflexivity.
Defined.

Lemma span_loop_lacks_rbrace rest : forall i st,
  lacks rbrace rest = true -> spans (span_loop i rest st) = spans st.
Proof.
  induction rest as [| char rest IH]; intros i st Hlacks; simpl in *;
    [reflexivity |].
  apply andb_true_iff in Hlacks as [Hchar Hlacks].
  rewrite IH by assumption.
  unfold span_char. destruct (Ascii.eqb char lbrace); [reflexivity |].
  destruct (Ascii.eqb char rbrace); [discriminate | reflexivity].
Qed.

Lemma span_loop_lacks_lbrace rest : forall i st,
  lacks lbrace rest = true -> span_start st = -1 ->
  spans (span_loop i rest st) = spans st.
Proof.
  induction rest as [| char rest IH]; intros i st Hlacks Hstart; simpl in *;
    [reflexivity |].
  apply andb_true_iff in Hlacks as [Hchar Hlacks].
  assert (Hstep : span_start (span_char i char st) = -1 /\
                  spans (span_char i char st) = spans st).
  { unfold span_char. destruct (Ascii.eqb char lbrace); [discriminate |].
    destruct (Ascii.eqb char rbrace); [| auto].
    rewrite Hstart, andb_false_r. simpl. auto. }
  destruct Hstep as [Hstart' Hspans].
  rewrite IH by assumption. exact Hspans.
Qed.

(** X5. A text that has no opening brace, or no closing brace, yields no
    block and no deck; in particular the empty text. *)
Theorem no_brace_pair_no_block
    (json_loads : text -> option json) (clock : nat -> string)
    (log_content : text) :
  lacks lbrace log_content = true \/ lacks rbrace log_content = true ->
  extract_json_blocks json_loads log_content = [] /\
  parse_log_chunk json_loads clock log_content 0 = [].
Proof.
  intros Hlacks.
  assert (Hblocks : extract_json_blocks json_loads log_content = []).
  { rewrite extract_json_blocks_spans. unfold block_spans.
    destruct Hlacks as [Hopen | Hclose].
    - rewrite span_loop_lacks_lbrace by (assumption || reflexivity).
      reflexivity.
    - rewrite span_loop_lacks_rbrace by assumption. reflexivity. }
  split; [exact Hblocks |].
  unfold parse_log_chunk. rewrite slice_from_zero, Hblocks. reflexivity.
Qed.

Lemma no_brace_pair_no_block_witness :
  parse_log_chunk Decoder.json_decode (fun _ => EmptyString)
    (log_text "[12:34:56] {'mainDeck':[{'cardId':1") 0 = [].
Proof.
  apply no_brace_pair_no_block. right. reflexivity.
Defined.

(** ** The parser: classification, expansion, normalization *)

(** X6. The classifier never drops an object that expansion would turn
    into raw decks: whenever [extract_decks] returns something,
    [is_deck_data] is true.  So the raw decks of a batch are the
    expansions of all its blocks. *)
Theorem classifier_keeps_expandable_objects :
  (forall json_obj, extract_decks json_obj <> [] -> is_deck_data json_obj = true) /\
  (forall blocks, raw_decks blocks = flat_map extract_decks blocks).
Proof.
  assert (Hkeep : forall json_obj,
            extract_decks json_obj <> [] -> is_deck_data json_obj = true).
  { intros json_obj. unfold extract_decks, is_deck_data, deck_keys. simpl.
    destruct (contains "decks" json_obj).
    { intros _. rewrite !orb_true_r. reflexivity. }
    destruct (contains "mainDeck" json_obj); [reflexivity |].
    destruct (contains "mainBoard" json_obj).
    { intros _. rewrite !orb_true_r. reflexivity. }
    intros H. contradiction. }
  split; [exact Hkeep |].
  induction blocks as [| json_obj blocks IH]; [reflexivity |].
  unfold raw_decks in *. simpl. rewrite IH. f_equal.
  destruct (is_deck_data json_obj) eqn:Hdata; [reflexivity |].
  destruct (extract_decks json_obj) eqn:Hnone; [reflexivity |].
  rewrite Hkeep in Hdata; [discriminate |]. rewrite Hnone. discriminate.
Qed.

Lemma contains_lookup (d : dict) key v :
  Py.lookup key d = Some v -> contains key d = true /\ get d key = v.
Proof.
  intros H. unfold contains, get, get_default. rewrite H. auto.
Qed.

(** Each raw deck that is a dict gives one canonical deck, the others
    none, and the order is kept. *)
Lemma normalize_from_dicts clock raw : forall tick,
  Forall2 (fun deck_data deck =>
             exists now, parse_deck_list now (JObj deck_data) = Some deck)
          (dicts raw) (normalize_from clock tick raw).
Proof.
  induction raw as [| deck_data raw IH]; intros tick; [constructor |].
  destruct deck_data; simpl; try apply IH.
  constructor; [| apply IH]. eexists. reflexivity.
Qed.

(** X7. The canonical decks of a batch correspond one to one, in order,
    to the raw decks that are dicts: every such raw deck is normalized,
    every other raw deck (a number, a string, a list inside a ['decks']
    list) is dropped without stopping the batch. *)
Theorem batch_keeps_dict_raw_decks
    (json_loads : text -> option json) (clock : nat -> string)
    (log_content : text) (start_pos : Z) :
  Forall2 (fun deck_data deck =>
             exists now, parse_deck_list now (JObj deck_data) = Some deck)
    (dicts (raw_decks (extract_json_blocks json_loads
                         (slice_from log_content start_pos))))
    (parse_log_chunk json_loads clock log_content start_pos) /\
  length (parse_log_chunk json_loads clock log_content start_pos) =
  length (dicts (raw_decks (extract_json_blocks json_loads
                              (slice_from log_content start_pos)))).
Proof.
  unfold parse_log_chunk.
  pose proof (normalize_from_dicts clock
    (raw_decks (extract_json_blocks json_loads (slice_from log_content start_pos)))
    0%nat) as H.
  split; [exact H |].
  symmetry. eapply Forall2_length, H.
Qed.

(** X8. When a block has the key ['decks'], only that container counts:
    the block yields one canonical deck per dict element of a list
    container, one for a dict container, and none for any other value,
    even when the block has a ['mainDeck'] of its own. *)
Theorem decks_container_takes_precedence
    (clock : nat -> string) (tick : nat) (json_obj : dict) (container : json) :
  Py.lookup "decks" json_obj = Some container ->
  raw_decks [json_obj] =
    (if is_dict container then [container] else items_of container) /\
  Forall2 (fun deck_data deck =>
             exists now, parse_deck_list now (JObj deck_data) = Some deck)
    (dicts (if is_dict container then [container] else items_of container))
    (normalize_from clock tick (raw_decks [json_obj])) /\
  (is_list container = false -> is_dict container = false ->
   normalize_from clock tick (raw_decks [json_obj]) = []).
Proof.
  intros Hlookup. apply contains_lookup in Hlookup as [Hhas Hget].
  assert (Hraw : raw_decks [json_obj] =
    (if is_dict container then [container] else items_of container)).
  { unfold raw_decks. simpl. rewrite app_nil_r.
    assert (Hdata : is_deck_data json_obj = true).
    { unfold is_deck_data, deck_keys. simpl. rewrite Hhas.
      rewrite !orb_true_r. reflexivity. }
    rewrite Hdata. unfold extract_decks. rewrite Hhas, Hget.
    destruct container; reflexivity. }
  split; [exact Hraw |]. rewrite Hraw. split.
  - apply normalize_from_dicts.
  - intros Hlist Hdict. destruct container; try discriminate; reflexivity.
Qed.

Lemma decks_container_takes_precedence_witness :
  normalize_from (fun _ => EmptyString) 0
    (raw_decks [[("decks", JNull);
                 ("mainDeck", JArr [JObj [("cardId", JInt 1)]])]%string]) = [].
Proof.
  destruct (decks_container_takes_precedence (fun _ => EmptyString) 0
              [("decks", JNull); ("mainDeck", JArr [JObj [("cardId", JInt 1)]])]%string
              JNull eq_refl) as (_ & _ & H).
  apply H; reflexivity.
Defined.

(** X9. The card zones of a canonical deck: the main deck is read from
    ['mainDeck'] whenever that key is present (if its value is not a list
    the main deck is empty, even with a good ['mainBoard']) and from
    ['mainBoard'] otherwise; main deck and sideboard keep, in order, one
    entry per dict element of the source list and skip every other
    element; the commander zone has one entry per element of
    ['commandZoneGRPIds'], of any type. *)
Theorem card_zones_of_canonical_deck (now : string) (deck_data : dict) :
  exists deck,
    parse_deck_list now (JObj deck_data) = Some (JObj deck) /\
    Py.lookup "main_deck" deck =
      Some (JArr (map card_entry
                    (dicts (items_of
                       (if contains "mainDeck" deck_data
                        then get deck_data "mainDeck"
                        else get deck_data "mainBoard"))))) /\
    Py.lookup "sideboard" deck =
      Some (JArr (map card_entry (dicts (items_of (get deck_data "sideboard"))))) /\
    Py.lookup "commander" deck =
      Some (JArr (map commander_entry
                    (items_of (get deck_data "commandZoneGRPIds")))).
Proof.
  eexists. split; [reflexivity |].
  cbn [Py.lookup String.eqb Ascii.eqb Bool.eqb]. 
  rewrite !listed_items_of by reflexivity.
  rewrite !card_entries_dicts.
  destruct (contains "mainDeck" deck_data); repeat split; reflexivity.
Qed.

(** X10. The shape of a canonical deck: a dict with exactly the eight
    keys id, name, format, description, main_deck, sideboard, commander,
    timestamp, in that order, whose three zones are lists of dicts with
    exactly the keys card_id, quantity, name. *)
Theorem canonical_deck_shape (now : string) (deck_data deck : json) :
  parse_deck_list now deck_data = Some deck ->
  exists fields,
    deck = JObj fields /\
    keys fields =
      ["id"; "name"; "format"; "description"; "main_deck"; "sideboard";
       "commander"; "timestamp"]%string /\
    forall zone,
      In zone ["main_deck"; "sideboard"; "commander"]%string ->
      exists entries,
        Py.lookup zone fields = Some (JArr entries) /\
        Forall (fun entry =>
                  exists card,
                    entry = JObj card /\
                    keys card = ["card_id"; "quantity"; "name"]%string)
               entries.
Proof.
  intros Hparse. destruct deck_data as [| | | | | | deck_data]; try discriminate.
  simpl in Hparse. injection Hparse as <-.
  eexists. split; [reflexivity |]. split; [reflexivity |].
  assert (Hcards : forall cards,
    Forall (fun entry => exists card,
              entry = JObj card /\
              keys card = ["card_id"; "quantity"; "name"]%string)
           (card_entries cards)).
  { intros cards. rewrite card_entries_dicts. apply List.Forall_forall.
    intros entry Hin. apply in_map_iff in Hin as (card & <- & _).
    eexists. split; reflexivity. }
  intros zone [<- | [<- | [<- | []]]]; eexists; (split; [reflexivity |]).
  - rewrite listed_items_of by reflexivity. apply Hcards.
  - rewrite listed_items_of by reflexivity. apply Hcards.
  - rewrite listed_items_of by reflexivity. apply List.Forall_forall.
    intros entry Hin. apply in_map_iff in Hin as (card_id & <- & _).
    eexists. split; reflexivity.
Qed.

Lemma canonical_deck_shape_witness :
  exists fields,
    JObj [("id", JNull); ("name", JStr "Unnamed Deck"); ("format", JStr "unknown");
          ("description", JStr EmptyString);
          ("main_deck", JArr [JObj [("card_id", JInt 7); ("quantity", JInt 1);
                                    ("name", JStr "Unknown")]]);
          ("sideboard", JArr []); ("commander", JArr []);
          ("timestamp", JStr "now")]%string = JObj fields /\
    keys fields =
      ["id"; "name"; "format"; "description"; "main_deck"; "sideboard";
       "commander"; "timestamp"]%string.
Proof.
  destruct (canonical_deck_shape "now"
              (JObj [("mainBoard", JArr [JInt 3; JObj [("id", JInt 7)]])]%string)
              _ eq_refl) as (fields & Heq & Hkeys & _).
  exists fields. split; assumption.
Defined.

(** ** Reading: positions and increments *)

(** X11. [start_pos] follows Python's slicing: at or past the end there
    is nothing to parse; within the text the parse starts there; a
    negative value counts from the end, and one below minus the length
    means the whole text. *)
Theorem start_pos_bounds
    (json_loads : text -> option json) (clock : nat -> string)
    (log_content : text) (start_pos : Z) :
  (Z.of_nat (length log_content) <= start_pos ->
   parse_log_chunk json_loads clock log_content start_pos = []) /\
  (0 <= start_pos <= Z.of_nat (length log_content) ->
   parse_log_chunk json_loads clock log_content start_pos =
   parse_log_chunk json_loads clock
     (skipn (Z.to_nat start_pos) log_content) 0) /\
  (- Z.of_nat (length log_content) <= start_pos < 0 ->
   parse_log_chunk json_loads clock log_content start_pos =
   parse_log_chunk json_loads clock
     (skipn (Z.to_nat (Z.of_nat (length log_content) + start_pos)) log_content)
     0) /\
  (start_pos < - Z.of_nat (length log_content) ->
   parse_log_chunk json_loads clock log_content start_pos =
   parse_log_chunk json_loads clock log_content 0).
Proof.
  unfold parse_log_chunk. repeat split; intros Hpos.
  - assert (Hempty : slice_from log_content start_pos = []).
    { unfold slice_from, clamp_index.
      destruct (Z.ltb_spec start_pos 0); [lia |].
      apply skipn_all2. lia. }
    rewrite Hempty. reflexivity.
  - rewrite slice_from_zero. do 3 f_equal.
    unfold slice_from, clamp_index.
    destruct (Z.ltb_spec start_pos 0); [lia |]. f_equal. lia.
  - rewrite slice_from_zero. do 3 f_equal.
    unfold slice_from, clamp_index.
    destruct (Z.ltb_spec start_pos 0); [| lia]. f_equal. lia.
  - rewrite slice_from_zero. do 3 f_equal.
    unfold slice_from, clamp_index.
    destruct (Z.ltb_spec start_pos 0); [| lia].
    replace (Z.to_nat (Z.max 0 (Z.min (start_pos + Z.of_nat (length log_content))
                                      (Z.of_nat (length log_content)))))
      with 0%nat by lia.
    reflexivity.
Qed.

Lemma start_pos_bounds_witness :
  parse_log_chunk Decoder.json_decode (fun _ => EmptyString)
    (log_text "{'mainDeck':[]} {'mainBoard':[]}") (-16) =
  parse_log_chunk Decoder.json_decode (fun _ => EmptyString)
    (skipn 16 (log_text "{'mainDeck':[]} {'mainBoard':[]}")) 0.
Proof.
  destruct (start_pos_bounds Decoder.json_decode (fun _ => EmptyString)
              (log_text "{'mainDeck':[]} {'mainBoard':[]}") (-16))
    as (_ & _ & H & _).
  apply H. vm_compute. split; [discriminate | reflexivity].
Defined.

(** X12. A file that has become shorter than the offset (truncated or
    rotated) is not noticed: at an offset below 2^64, which [seek] takes
    for a byte position, [parse_file] returns no deck and the same
    offset, whatever the file now holds. *)
Theorem shorter_file_reads_nothing
    (json_loads : text -> option json) (json_raises : text -> bool)
    (clock : nat -> string) (decode : list ascii -> text)
    (cookie_text : Z -> list ascii -> option text)
    (on_disk : disk_file) (from_position : Z) :
  decode [] = [] ->
  Z.of_nat (length (file_bytes on_disk)) <= from_position < cookie_base ->
  parse_file json_loads json_raises clock decode cookie_text (Some on_disk)
    from_position = ([], from_position).
Proof.
  intros Hdecode Hshort. unfold parse_file, seek_read.
  destruct (Z.ltb_spec from_position 0); [lia |].
  rewrite Z.mod_small by lia.
  destruct (Z.ltb_spec from_position cookie_base); [| lia].
  destruct (from_position <? off_t_limit); [| reflexivity].
  rewrite skipn_all2 by lia.
  rewrite Hdecode. cbn [scan_raises block_spans span_loop spans span_init existsb].
  rewrite parse_log_chunk_empty. f_equal. lia.
Qed.

Lemma shorter_file_reads_nothing_witness :
  parse_file Decoder.json_decode (fun _ => false) (fun _ => EmptyString)
    (fun bytes => bytes) (fun _ _ => None)
    (Some (DiskFile (log_text "{'mainDeck':[]}") eq_refl)) 4000 = ([], 4000).
Proof.
  apply shorter_file_reads_nothing;
    [reflexivity | vm_compute; split; [discriminate | reflexivity]].
Defined.

(** X13. Incremental reading.  A call from a position within the file,
    when the decoder raises on no candidate of the text read, returns the
    length of the file as new offset.  After bytes are appended, the call
    from that offset parses the appended bytes alone and returns the new
    length when the decoder raises on no candidate of theirs, and returns
    no deck and the old offset when it raises on one. *)
Theorem parse_file_reads_appended_bytes
    (json_loads : text -> option json) (json_raises : text -> bool)
    (clock clock' : nat -> string) (decode : list ascii -> text)
    (cookie_text : Z -> list ascii -> option text)
    (before after : disk_file) (appended : list ascii)
    (from_position : Z) :
  file_bytes after = file_bytes before ++ appended ->
  0 <= from_position <= Z.of_nat (length (file_bytes before)) ->
  let old_length := Z.of_nat (length (file_bytes before)) in
  (scan_raises json_raises
     (decode (skipn (Z.to_nat from_position) (file_bytes before))) = false ->
   snd (parse_file json_loads json_raises clock decode cookie_text
          (Some before) from_position) = old_length) /\
  (scan_raises json_raises (decode appended) = false ->
   parse_file json_loads json_raises clock' decode cookie_text (Some after)
     old_length =
   (parse_log_chunk json_loads clock' (decode appended) 0,
    old_length + Z.of_nat (length appended))) /\
  (scan_raises json_raises (decode appended) = true ->
   parse_file json_loads json_raises clock' decode cookie_text (Some after)
     old_length = ([], old_length)).
Proof.
  intros Hafter Hpos old_length.
  pose proof (disk_file_fits before) as Hfits.
  assert (Hread : seek_read decode cookie_text (file_bytes after) old_length =
                  Some (decode appended)).
  { rewrite seek_read_plain by (unfold old_length; lia).
    unfold old_length. rewrite Hafter, Nat2Z.id, drop_app_length. reflexivity. }
  assert (Hmod : old_length mod cookie_base = old_length).
  { apply Z.mod_small. unfold old_length, off_t_limit, cookie_base in *. lia. }
  split; [| split].
  - intros Hquiet. unfold parse_file.
    destruct (Z.ltb_spec from_position 0); [lia |].
    rewrite seek_read_plain by lia. rewrite Hquiet. cbn [snd].
    rewrite Z.mod_small by (unfold off_t_limit, cookie_base in *; lia).
    unfold old_length. lia.
  - intros Hquiet. unfold parse_file.
    destruct (Z.ltb_spec old_length 0); [unfold old_length in *; lia |].
    rewrite Hread, Hquiet, Hmod. f_equal.
    rewrite Hafter, length_app. unfold old_length. lia.
  - intros Hraises. unfold parse_file.
    destruct (old_length <? 0); [reflexivity |].
    rewrite Hread, Hraises. reflexivity.
Qed.

Lemma parse_file_reads_appended_bytes_witness :
  parse_file Decoder.json_decode (fun _ => false) (fun _ => EmptyString)
    (fun bytes => bytes) (fun _ _ => None)
    (Some (DiskFile (log_text "{'mainDeck':[]} " ++ log_text "{'mainBoard':[]}")
             eq_refl)) 16 =
  (parse_log_chunk Decoder.json_decode (fun _ => EmptyString)
     (log_text "{'mainBoard':[]}") 0, 32).
Proof.
  destruct (parse_file_reads_appended_bytes Decoder.json_decode
              (fun _ => false) (fun _ => EmptyString) (fun _ => EmptyString)
              (fun bytes => bytes) (fun _ _ => None)
              (DiskFile (log_text "{'mainDeck':[]} ") eq_refl)
              (DiskFile (log_text "{'mainDeck':[]} " ++ log_text "{'mainBoard':[]}")
                 eq_refl)
              (log_text "{'mainBoard':[]}") 0)
    as (_ & H & _).
  - reflexivity.
  - vm_compute. split; discriminate.
  - apply H. vm_compute. reflexivity.
Defined.

(** A candidate on which the decoder raises: no deck, not even the one
    of the block before it, and the offset stays where it was. *)
Example decoder_exception_keeps_offset :
  parse_file Decoder.json_decode (fun candidate => (20 <? length candidate)%nat)
    (fun _ => EmptyString) (fun bytes => bytes) (fun _ _ => None)
    (Some (DiskFile (log_text "{'mainDeck':[]} {'mainBoard':[],'id':1234567890}")
             eq_refl)) 0 = ([], 0) /\
  parse_file Decoder.json_decode (fun _ => false)
    (fun _ => EmptyString) (fun bytes => bytes) (fun _ _ => None)
    (Some (DiskFile (log_text "{'mainDeck':[]} {'mainBoard':[],'id':1234567890}")
             eq_refl)) 0 =
  (parse_log_chunk Decoder.json_decode (fun _ => EmptyString)
     (log_text "{'mainDeck':[]} {'mainBoard':[],'id':1234567890}") 0, 48).
Proof. split; vm_compute; reflexivity. Qed.

(** An offset of 2^64 is a cookie for byte 0 with decoder state: when
    the text then read is the file's after a line break, the call
    returns the deck of the file and its length. *)
Example cookie_offset_reads_from_start :
  parse_file Decoder.json_decode (fun _ => false) (fun _ => EmptyString)
    (fun bytes => bytes)
    (fun _ bytes => Some (ascii_of_nat 10 :: bytes))
    (Some (DiskFile (log_text "{'mainDeck':[]}") eq_refl)) cookie_base =
  (parse_log_chunk Decoder.json_decode (fun _ => EmptyString)
     (log_text "{'mainDeck':[]}") 0, 15).
Proof. vm_compute. reflexivity. Qed.

Lemma brace_free_app s t :
  brace_free (s ++ t) = brace_free s && brace_free t.
Proof. unfold brace_free. apply forallb_app. Qed.

Lemma balance_brace_free s : brace_free s = true -> balance s = 0.
Proof.
  induction s as [| char s IH]; simpl; intros H; [reflexivity |].
  apply andb_true_iff in H as [Hc Hs]. rewrite IH by assumption. lia.
Qed.

Lemma balance_app s t : balance (s ++ t) = balance s + balance t.
Proof. induction s as [| char s IH]; simpl; lia. Qed.

Lemma stays_open_brace_free s level :
  brace_free s = true -> 0 < level -> stays_open level s = true.
Proof.
  induction s as [| char s IH]; simpl; intros H Hpos; [reflexivity |].
  apply andb_true_iff in H as [Hc Hs]. apply Z.eqb_eq in Hc.
  rewrite Hc, Z.add_0_r. rewrite IH by assumption.
  rewrite andb_true_r. apply Z.ltb_lt. assumption.
Qed.

Lemma stays_low_brace_free s level : forall rest,
  brace_free s = true -> level <= 0 ->
  stays_low level (s ++ rest) = stays_low level rest \/ s = [] .
Proof.
  intros rest. induction s as [| char s IH]; simpl; intros H Hlow; [auto |].
  left. apply andb_true_iff in H as [Hc Hs]. apply Z.eqb_eq in Hc.
  rewrite Hc, Z.add_0_r.
  destruct (Z.leb_spec level 0); [| lia]. simpl.
  destruct (IH Hs Hlow) as [Heq | ->]; [exact Heq | reflexivity].
Qed.

Lemma lacks_rbrace_brace_free s : brace_free s = true -> lacks rbrace s = true.
Proof.
  induction s as [| char s IH]; simpl; intros H; [reflexivity |].
  apply andb_true_iff in H as [Hc Hs]. rewrite IH by assumption.
  rewrite andb_true_r. apply Z.eqb_eq in Hc.
  destruct (Ascii.eqb_spec char rbrace) as [-> |]; [discriminate | reflexivity].
Qed.

(** X14. Reading in increments is not the same as reading at once.  If
    one read ends inside an object and the next begins with the rest of
    it, neither read yields that object, and the second read yields
    nothing from the flat objects after it either, while a single scan
    of the two chunks together yields the object and what follows. *)
Theorem object_split_across_reads_is_lost
    (json_loads : text -> option json) (pre body1 body2 post : text) :
  brace_free pre = true -> brace_free body1 = true ->
  brace_free body2 = true -> stays_low (-1) post = true ->
  extract_json_blocks json_loads (pre ++ lbrace :: body1) = [] /\
  extract_json_blocks json_loads (body2 ++ rbrace :: post) = [] /\
  extract_json_blocks json_loads
    ((pre ++ lbrace :: body1) ++ (body2 ++ rbrace :: post)) =
  match json_loads (lbrace :: (body1 ++ body2) ++ [rbrace]) with
  | Some (JObj json_obj) => [json_obj]
  | _ => []
  end ++ extract_json_blocks json_loads post.
Proof.
  intros Hpre Hb1 Hb2 Hpost.
  split; [| split].
  - rewrite extract_json_blocks_spans. unfold block_spans.
    rewrite span_loop_lacks_rbrace; [reflexivity |].
    unfold lacks. rewrite forallb_app. fold (lacks rbrace pre).
    rewrite (lacks_rbrace_brace_free pre) by assumption. simpl.
    apply (lacks_rbrace_brace_free body1), Hb1.
  - rewrite extract_json_blocks_spans. unfold block_spans.
    rewrite span_loop_stays_low; [reflexivity | reflexivity |].
    simpl span_level.
    destruct (stays_low_brace_free body2 0 (rbrace :: post) Hb2 (Z.le_refl 0))
      as [-> | ->]; simpl; exact Hpost.
  - set (block := lbrace :: (body1 ++ body2) ++ [rbrace]).
    assert (Hmatched : matched block = true).
    { unfold block, matched. simpl.
      apply closes_snoc.
      - apply stays_open_brace_free; [| lia].
        rewrite brace_free_app, Hb1, Hb2. reflexivity.
      - rewrite balance_brace_free; [lia |].
        rewrite brace_free_app, Hb1, Hb2. reflexivity. }
    replace ((pre ++ lbrace :: body1) ++ body2 ++ rbrace :: post)
      with ((pre ++ block ++ []) ++ post).
    2:{ unfold block. rewrite app_nil_r. simpl.
        rewrite <- !app_assoc. simpl. rewrite <- !app_assoc. reflexivity. }
    rewrite extract_json_blocks_spans, block_spans_balanced_app.
    2:{ rewrite !balance_app, (balance_brace_free pre) by assumption.
        unfold block. simpl. rewrite balance_snoc, balance_brace_free.
        - reflexivity.
        - rewrite brace_free_app, Hb1, Hb2. reflexivity. }
    rewrite omap_app. f_equal.
    + rewrite omap_decode_block_prefix by apply block_spans_bounds.
      rewrite block_spans_matched by (assumption || reflexivity).
      unfold omap, list_omap, decode_block. cbn [fst snd].
      replace (Z.of_nat (length pre) + Z.of_nat (length block) - 1 + 1)
        with (Z.of_nat (length pre + length block)) by lia.
      rewrite slice_middle.
      destruct (json_loads block) as [[] |]; reflexivity.
    + rewrite omap_decode_block_shift by apply block_spans_bounds.
      symmetry. apply extract_json_blocks_spans.
Qed.

Lemma object_split_across_reads_is_lost_witness :
  extract_json_blocks Decoder.json_decode
    (log_text "[12:34:56] " ++ lbrace :: log_text "'mainDeck':[") = [] /\
  extract_json_blocks Decoder.json_decode
    (log_text "],'id':'d1'" ++ rbrace :: log_text " {'mainBoard':[]}") = [] /\
  extract_json_blocks Decoder.json_decode
    ((log_text "[12:34:56] " ++ lbrace :: log_text "'mainDeck':[") ++
     (log_text "],'id':'d1'" ++ rbrace :: log_text " {'mainBoard':[]}")) =
  [[("mainDeck", JArr []); ("id", JStr "d1")]; [("mainBoard", JArr [])]]%string.
Proof.
  destruct (object_split_across_reads_is_lost Decoder.json_decode
              (log_text "[12:34:56] ") (log_text "'mainDeck':[")
              (log_text "],'id':'d1'") (log_text " {'mainBoard':[]}")
              eq_refl eq_refl eq_refl eq_refl) as (H1 & H2 & H3).
  split; [exact H1 |]. split; [exact H2 |].
  rewrite H3. reflexivity.
Defined.

(** ** The daemon: ledger and exports *)

Section LedgerFacts.

Variable str_compound : json -> string.

Lemma export_new_last_position decks : forall st,
  last_position (export_new str_compound decks st) = last_position st.
Proof.
  induction decks as [| deck decks IH]; intros st; simpl; [reflexivity |].
  destruct deck; try reflexivity.
  destruct (get_deck_id str_compound members); [| reflexivity].
  destruct (contains "name" members); [| reflexivity].
  destruct (decide _); rewrite IH; reflexivity.
Qed.

(** X15. One pass over a batch: the decks exported are a subsequence of
    the batch; their fingerprints are pairwise distinct and were not in
    the ledger before; the ledger afterwards is the old ledger plus
    exactly these fingerprints; decks already exported stay listed and
    the read position is untouched. *)
Theorem export_pass_ledger (decks : list json) (st : daemon_state) :
  exists new fingerprints,
    exports (export_new str_compound decks st) = exports st ++ new /\
    new `sublist_of` decks /\
    Forall2 (fun deck print => fingerprint str_compound deck = Some print)
            new fingerprints /\
    NoDup fingerprints /\
    Forall (fun print => print ∉ exported_decks st) fingerprints /\
    exported_decks (export_new str_compound decks st) =
      list_to_set fingerprints ∪ exported_decks st /\
    last_position (export_new str_compound decks st) = last_position st.
Proof.
  revert st. induction decks as [| deck decks IH]; intros st.
  - exists [], []. simpl. rewrite app_nil_r.
    repeat split; try constructor. set_solver.
  - assert (Hstop : export_new str_compound (deck :: decks) st = st ->
      exists new fingerprints,
        exports (export_new str_compound (deck :: decks) st) = exports st ++ new /\
        new `sublist_of` deck :: decks /\
        Forall2 (fun deck print => fingerprint str_compound deck = Some print)
                new fingerprints /\
        NoDup fingerprints /\
        Forall (fun print => print ∉ exported_decks st) fingerprints /\
        exported_decks (export_new str_compound (deck :: decks) st) =
          list_to_set fingerprints ∪ exported_decks st /\
        last_position (export_new str_compound (deck :: decks) st) =
          last_position st).
    { intros ->. exists [], []. rewrite app_nil_r.
      repeat split; try constructor; [apply sublist_nil_l | set_solver]. }
    destruct deck as [| | | | | | deck]; try (apply Hstop; reflexivity).
    destruct (get_deck_id str_compound deck) as [print |] eqn:Hprint;
      [| apply Hstop; simpl; rewrite Hprint; reflexivity].
    destruct (contains "name" deck) eqn:Hname;
      [| apply Hstop; simpl; rewrite Hprint, Hname; reflexivity].
    clear Hstop.
    destruct (decide (print ∈ exported_decks st)) as [Hseen | Hfresh].
    + rewrite (export_new_seen _ _ _ _ _ Hprint Hname Hseen).
      destruct (IH st) as (new & prints & Hexp & Hsub & Hall & Hnodup & Hnot & Hledger & Hpos).
      exists new, prints. repeat split; try assumption.
      apply sublist_cons, Hsub.
    + rewrite (export_new_fresh _ _ _ _ _ Hprint Hname Hfresh).
      destruct (IH {| last_position := last_position st;
                      exported_decks := {[print]} ∪ exported_decks st;
                      exports := exports st ++ [JObj deck] |})
        as (new & prints & Hexp & Hsub & Hall & Hnodup & Hnot & Hledger & Hpos).
      simpl in Hexp, Hnot, Hledger, Hpos.
      exists (JObj deck :: new), (print :: prints).
      split; [rewrite Hexp, <- app_assoc; reflexivity |].
      split; [apply sublist_skip, Hsub |].
      split; [constructor; [exact Hprint | exact Hall] |].
      split.
      { apply NoDup_cons. split; [| exact Hnodup].
        intros Hin. rewrite Forall_forall in Hnot.
        apply (Hnot print Hin). set_solver. }
      split.
      { constructor; [exact Hfresh |].
        eapply Forall_impl; [exact Hnot |]. intros x Hx. set_solver. }
      split; [rewrite Hledger, list_to_set_cons; set_solver | exact Hpos].
Qed.

End LedgerFacts.

(** A call at the offset a call returned reads nothing. *)
Lemma parse_file_at_returned_offset
    json_loads json_raises clock clock' decode cookie_text file from_position :
  decode [] = [] ->
  parse_file json_loads json_raises clock' decode cookie_text file
    (snd (parse_file json_loads json_raises clock decode cookie_text file
            from_position)) =
  ([], snd (parse_file json_loads json_raises clock decode cookie_text file
              from_position)).
Proof.
  intros Hdecode.
  destruct (parse_file_outcome json_loads json_raises clock decode
              cookie_text file from_position) as [Hfails | (on_disk & -> & Hrange)].
  - rewrite (Hfails clock). cbn [snd]. apply Hfails.
  - apply parse_file_past_end; [exact Hdecode |].
    unfold off_t_limit, cookie_base in *. lia.
Qed.

(** X16. With the file unchanged, a second [process_log_file] changes
    nothing: the position, the ledger and the list of exports stay as
    the first call left them, whether or not the first call exported
    anything and whether or not its loop was cut short. *)
Theorem process_log_file_again_is_noop
    (json_loads : text -> option json) (json_raises : text -> bool)
    (clock clock' : nat -> string) (decode : list ascii -> text)
    (cookie_text : Z -> list ascii -> option text)
    (str_compound : json -> string)
    (auto_export : bool) (file : option disk_file) (st : daemon_state) :
  decode [] = [] ->
  process_log_file json_loads json_raises clock' decode cookie_text
    str_compound auto_export file
    (process_log_file json_loads json_raises clock decode cookie_text
       str_compound auto_export file st) =
  process_log_file json_loads json_raises clock decode cookie_text
    str_compound auto_export file st.
Proof.
  intros Hdecode.
  pose proof (parse_file_at_returned_offset json_loads json_raises clock clock'
                decode cookie_text file (last_position st) Hdecode) as Hagain.
  unfold process_log_file at 1.
  set (st1 := process_log_file json_loads json_raises clock decode cookie_text
                str_compound auto_export file st).
  assert (Hpos : last_position st1 =
                 snd (parse_file json_loads json_raises clock decode cookie_text
                        file (last_position st))).
  { unfold st1, process_log_file.
    destruct (parse_file json_loads json_raises clock decode cookie_text file
                (last_position st))
      as [decks new_position].
    destruct auto_export; [rewrite export_new_last_position |]; reflexivity. }
  rewrite Hpos, Hagain, <- Hpos.
  destruct st1 as [position ledger exported]. simpl.
  destruct auto_export; reflexivity.
Qed.

Lemma process_log_file_again_is_noop_witness :
  exports
    (process_log_file Decoder.json_decode (fun _ => false)
       (fun _ => "12:00:05"%string) (fun bytes => bytes) (fun _ _ => None)
       (fun _ => EmptyString) true
       (Some (DiskFile (log_text "{'mainDeck':[],'id':'d1','name':'Test'}")
                eq_refl))
       (process_log_file Decoder.json_decode (fun _ => false)
          (fun _ => "12:00:00"%string) (fun bytes => bytes) (fun _ _ => None)
          (fun _ => EmptyString) true
          (Some (DiskFile (log_text "{'mainDeck':[],'id':'d1','name':'Test'}")
                   eq_refl))
          {| last_position := 0; exported_decks := ∅; exports := [] |})) =
  [JObj [("id", JStr "d1"); ("name", JStr "Test"); ("format", JStr "unknown");
         ("description", JStr EmptyString); ("main_deck", JArr []);
         ("sideboard", JArr []); ("commander", JArr []);
         ("timestamp", JStr "12:00:00")]]%string.
Proof.
  rewrite process_log_file_again_is_noop by reflexivity.
  vm_compute. reflexivity.
Defined.

Lemma string_append_assoc (a b c : string) :
  ((a +:+ b) +:+ c = a +:+ (b +:+ c))%string.
Proof.
  induction a as [| char a IH]; [reflexivity |].
  change (String char ((a +:+ b) +:+ c) = String char (a +:+ (b +:+ c))).
  f_equal. exact IH.
Qed.

(** X17. The fingerprint joins id, name and count with underscores and
    nothing more, so it does not tell where the id ends: a deck with id
    [a] and name [b_c] has the fingerprint of a deck with id [a_b] and
    name [c] and as many main-deck cards, and is suppressed by it when it
    follows it in a batch. *)
Theorem fingerprint_separator_collision
    (str_compound : json -> string) (deck1 deck2 : dict)
    (a b c : string) (cards1 cards2 : list json) :
  Py.lookup "id" deck1 = Some (JStr (a +:+ "_" +:+ b)) ->
  Py.lookup "name" deck1 = Some (JStr c) ->
  Py.lookup "id" deck2 = Some (JStr a) ->
  Py.lookup "name" deck2 = Some (JStr (b +:+ "_" +:+ c)) ->
  Py.lookup "main_deck" deck1 = Some (JArr cards1) ->
  Py.lookup "main_deck" deck2 = Some (JArr cards2) ->
  length cards1 = length cards2 ->
  get_deck_id str_compound deck1 = get_deck_id str_compound deck2 /\
  forall st rest,
    export_new str_compound (JObj deck1 :: JObj deck2 :: rest) st =
    export_new str_compound (JObj deck1 :: rest) st.
Proof.
  intros Hid1 Hname1 Hid2 Hname2 Hmain1 Hmain2 Hlen.
  assert (Hkey1 : get_deck_id str_compound deck1 =
    Some (a +:+ "_" +:+ b +:+ "_" +:+ c +:+ "_" +:+
          str_int (Z.of_nat (length cards1)))).
  { unfold get_deck_id, get_default. rewrite Hid1, Hname1, Hmain1. simpl.
    rewrite !string_append_assoc. reflexivity. }
  assert (Hkey2 : get_deck_id str_compound deck2 =
    Some (a +:+ "_" +:+ b +:+ "_" +:+ c +:+ "_" +:+
          str_int (Z.of_nat (length cards1)))).
  { unfold get_deck_id, get_default. rewrite Hid2, Hname2, Hmain2. simpl.
    rewrite Hlen, !string_append_assoc. reflexivity. }
  assert (Hhas1 : contains "name" deck1 = true)
    by (unfold contains; rewrite Hname1; reflexivity).
  assert (Hhas2 : contains "name" deck2 = true)
    by (unfold contains; rewrite Hname2; reflexivity).
  split; [rewrite Hkey1, Hkey2; reflexivity |].
  intros st rest.
  destruct (decide (a +:+ "_" +:+ b +:+ "_" +:+ c +:+ "_" +:+
                    str_int (Z.of_nat (length cards1)) ∈ exported_decks st))
    as [Hseen | Hnew].
  - rewrite !(export_new_seen _ _ _ _ _ Hkey1 Hhas1 Hseen).
    apply (export_new_seen _ _ _ _ _ Hkey2 Hhas2 Hseen).
  - rewrite !(export_new_fresh _ _ _ _ _ Hkey1 Hhas1 Hnew).
    apply (export_new_seen _ _ _ _ _ Hkey2 Hhas2).
    simpl. set_solver.
Qed.

Lemma fingerprint_separator_collision_witness :
  get_deck_id (fun _ => EmptyString)
    [("id", JStr "std_2024"); ("name", JStr "elves");
     ("main_deck", JArr [JInt 1])]%string =
  get_deck_id (fun _ => EmptyString)
    [("id", JStr "std"); ("name", JStr "2024_elves");
     ("main_deck", JArr [JInt 2])]%string.
Proof.
  apply (fingerprint_separator_collision (fun _ => EmptyString)
           [("id", JStr "std_2024"); ("name", JStr "elves");
            ("main_deck", JArr [JInt 1])]%string
           [("id", JStr "std"); ("name", JStr "2024_elves");
            ("main_deck", JArr [JInt 2])]%string
           "std" "2024" "elves" [JInt 1] [JInt 2]); reflexivity.
Defined.

(** ** The exporter: file names *)

(** The nine passes of [replace] amount to one pass that replaces every
    listed character. *)
Lemma replace_passes bad : forall name,
  fold_left (fun name char => replace_char char name) bad name =
  map (fun c => if existsb (Ascii.eqb c) bad then "_"%char else c) name.
Proof.
  induction bad as [| char bad IH]; intros name; simpl.
  - symmetry. apply map_id.
  - rewrite IH. unfold replace_char. rewrite map_map.
    apply map_ext. intros c.
    destruct (Ascii.eqb c char); simpl; [| reflexivity].
    destruct (existsb _ bad); reflexivity.
Qed.

Lemma sanitize_chars_once name :
  sanitize_chars name =
  firstn 100
    (map (fun c => if existsb (Ascii.eqb c) invalid_chars then "_"%char else c)
         name).
Proof.
  unfold sanitize_chars. rewrite replace_passes.
  destruct (Nat.ltb_spec 100
    (length (map (fun c => if existsb (Ascii.eqb c) invalid_chars
                           then "_"%char else c) name))); [reflexivity |].
  symmetry. apply firstn_all2. assumption.
Qed.

Lemma clean_cons c name :
  clean (c :: name) =
  negb (existsb (Ascii.eqb c) invalid_chars) && clean name.
Proof. reflexivity. Qed.

Lemma clean_firstn n name : clean name = true -> clean (firstn n name) = true.
Proof.
  revert n. induction name as [| c name IH]; intros [| n] H;
    try reflexivity.
  change (firstn (S n) (c :: name)) with (c :: firstn n name).
  rewrite clean_cons in *.
  apply andb_true_iff in H as [Hc Hname]. rewrite Hc. apply IH, Hname.
Qed.

Lemma clean_replaced name :
  clean (map (fun c => if existsb (Ascii.eqb c) invalid_chars
                       then "_"%char else c) name) = true.
Proof.
  induction name as [| c name IH]; [reflexivity |].
  change (map ?f (c :: name)) with (f c :: map f name).
  rewrite clean_cons, IH, andb_true_r.
  destruct (existsb (Ascii.eqb c) invalid_chars) eqn:Hc.
  - reflexivity.
  - rewrite Hc. reflexivity.
Qed.

Lemma replaced_clean name :
  clean name = true ->
  map (fun c => if existsb (Ascii.eqb c) invalid_chars then "_"%char else c)
      name = name.
Proof.
  induction name as [| c name IH]; intros H; [reflexivity |].
  rewrite clean_cons in H.
  apply andb_true_iff in H as [Hc Hname].
  change (map ?f (c :: name)) with (f c :: map f name).
  rewrite IH by assumption.
  apply negb_true_iff in Hc. rewrite Hc. reflexivity.
Qed.

Lemma string_length_chars s : String.length s = length (list_ascii_of_string s).
Proof. induction s as [| c s IH]; simpl; [| rewrite IH]; reflexivity. Qed.

(** X18. A sanitized name holds none of the nine characters that are
    replaced, its length is the smaller of the name's length and 100, and
    it keeps every character of the first 100 that is not one of the
    nine. *)
Theorem sanitize_filename_is_safe (name : string) :
  clean (list_ascii_of_string (sanitize_filename name)) = true /\
  String.length (sanitize_filename name) = Nat.min 100 (String.length name) /\
  forall i c,
    nth_error (list_ascii_of_string name) i = Some c ->
    (i < 100)%nat ->
    nth_error (list_ascii_of_string (sanitize_filename name)) i =
    Some (if existsb (Ascii.eqb c) invalid_chars then "_"%char else c).
Proof.
  unfold sanitize_filename.
  rewrite string_length_chars, !list_ascii_of_string_of_list_ascii.
  rewrite sanitize_chars_once. split; [| split].
  - apply clean_firstn, clean_replaced.
  - rewrite length_take, length_map, string_length_chars. reflexivity.
  - intros i c Hnth Hi.
    rewrite nth_error_firstn.
    destruct (Nat.ltb_spec i 100); [| lia].
    rewrite nth_error_map, Hnth. reflexivity.
Qed.

(** X19. The names that [sanitize_filename] leaves alone are exactly
    those of at most 100 characters with none of the nine; every
    sanitized name is one, so sanitizing twice is sanitizing once. *)
Theorem sanitize_filename_fixed_points (name : string) :
  (sanitize_filename name = name <->
   clean (list_ascii_of_string name) = true /\ (String.length name <= 100)%nat) /\
  sanitize_filename (sanitize_filename name) = sanitize_filename name.
Proof.
  assert (Hfix : forall n,
    clean (list_ascii_of_string n) = true -> (String.length n <= 100)%nat ->
    sanitize_filename n = n).
  { intros n Hclean Hlen. unfold sanitize_filename.
    rewrite sanitize_chars_once, replaced_clean by assumption.
    rewrite firstn_all2 by (rewrite <- string_length_chars; assumption).
    apply string_of_list_ascii_of_string. }
  assert (Hsafe : forall n,
    clean (list_ascii_of_string (sanitize_filename n)) = true /\
    (String.length (sanitize_filename n) <= 100)%nat).
  { intros n. unfold sanitize_filename.
    rewrite string_length_chars, !list_ascii_of_string_of_list_ascii.
    rewrite sanitize_chars_once. split.
    - apply clean_firstn, clean_replaced.
    - rewrite length_take. lia. }
  split; [split |].
  - intros Heq. rewrite <- Heq. apply Hsafe.
  - intros [Hclean Hlen]. apply Hfix; assumption.
  - apply Hfix; apply Hsafe.
Qed.

(** The name of a canonical deck is a string when the two source names
    are strings or missing. *)
Lemma resolved_name_is_string a b placeholder :
  str_or_none a = true -> str_or_none b = true ->
  exists name, or_ (or_ a b) (JStr placeholder) = JStr name.
Proof.
  intros Ha Hb. unfold or_.
  destruct a as [| | | | sa | |]; try discriminate;
    destruct b as [| | | | sb | |]; try discriminate; simpl;
    repeat match goal with
           | |- context [String.eqb ?s EmptyString] =>
               destruct (String.eqb s EmptyString); simpl
           end; eexists; reflexivity.
Qed.

(** X20. File names for canonical decks.  When the source ['name'] and
    ['deckName'] are strings or missing, [generate_filename] returns a
    name for the deck; when the source ['name'] is a true value that is
    not a string (a number, a list), the canonical deck carries it as its
    name and [generate_filename] raises, for every extension, so none of
    the three exports of that deck can be written. *)
Theorem generate_filename_of_canonical_deck
    (str_compound : json -> string) (now timestamp extension : string)
    (deck_data deck : dict) :
  parse_deck_list now (JObj deck_data) = Some (JObj deck) ->
  (str_or_none (get deck_data "name") = true ->
   str_or_none (get deck_data "deckName") = true ->
   exists file,
     generate_filename str_compound timestamp deck extension = Some file) /\
  (truthy (get deck_data "name") = true ->
   str_or_none (get deck_data "name") = false ->
   generate_filename str_compound timestamp deck extension = None).
Proof.
  intros Hparse. simpl in Hparse. injection Hparse as <-.
  unfold generate_filename.
  change (get_default _ "name" (JStr "deck"))
    with (or_ (or_ (get deck_data "name") (get deck_data "deckName"))
              (JStr "Unnamed Deck")).
  split.
  - intros Hname Hdeckname.
    destruct (resolved_name_is_string _ _ "Unnamed Deck" Hname Hdeckname)
      as [name ->].
    destruct (truthy _); eexists; reflexivity.
  - intros Htrue Hnot. rewrite (or_truthy _ _ Htrue), (or_truthy _ _ Htrue).
    destruct (get deck_data "name"); try discriminate; reflexivity.
Qed.

Lemma generate_filename_of_canonical_deck_witness :
  generate_filename (fun _ => EmptyString) "20241230_123456"
    [("id", JNull); ("name", JInt 2024); ("format", JStr "unknown");
     ("description", JStr EmptyString); ("main_deck", JArr []);
     ("sideboard", JArr []); ("commander", JArr []);
     ("timestamp", JStr "now")]%string "json" = None.
Proof.
  destruct (generate_filename_of_canonical_deck (fun _ => EmptyString)
              "now" "20241230_123456" "json"
              [("name", JInt 2024); ("mainDeck", JArr [])]%string _ eq_refl)
    as [_ H].
  apply H; reflexivity.
Defined.

(** ** The exporter: what is written *)

Section WriterFacts.

Variable str_compound : json -> string.
Variable encodes : string -> bool.
Hypothesis encodes_all : forall s, encodes s = true.

Lemma succeeds_write s : succeeds (write encodes s).
Proof.
  intros content. unfold write. rewrite encodes_all. eexists. reflexivity.
Qed.

Lemma succeeds_skip : succeeds skip.
Proof. intros content. eexists. reflexivity. Qed.

Lemma succeeds_then first second :
  succeeds first -> succeeds second -> succeeds (then_ first second).
Proof.
  intros Hfirst Hsecond content. unfold then_.
  destruct (Hfirst content) as [content' ->]. apply Hsecond.
Qed.

Lemma succeeds_write_cards entries :
  Forall (fun entry => exists line, card_line str_compound entry = Some line)
         entries ->
  succeeds (write_cards str_compound encodes entries).
Proof.
  induction 1 as [| entry entries [line Hline] _ IH]; simpl.
  - apply succeeds_skip.
  - rewrite Hline. apply succeeds_then; [apply succeeds_write | exact IH].
Qed.

Lemma card_entries_have_lines cards :
  Forall (fun entry => exists line, card_line str_compound entry = Some line)
         (card_entries cards).
Proof.
  rewrite card_entries_dicts. apply List.Forall_forall.
  intros entry Hin. apply in_map_iff in Hin as (card & <- & _).
  eexists. reflexivity.
Qed.

Lemma commander_entries_have_lines ids :
  Forall (fun entry => exists line, card_line str_compound entry = Some line)
         (map commander_entry ids).
Proof.
  apply List.Forall_forall.
  intros entry Hin. apply in_map_iff in Hin as (card_id & <- & _).
  eexists. reflexivity.
Qed.

Lemma listed_have_lines (deck_data : dict) key entries :
  (forall items,
     Forall (fun entry => exists line, card_line str_compound entry = Some line)
            (entries items)) ->
  entries [] = [] ->
  succeeds (for_cards str_compound encodes
              (JArr (listed deck_data key entries))).
Proof.
  intros Hlines Hnil. unfold for_cards. simpl.
  rewrite listed_items_of by assumption.
  apply succeeds_write_cards, Hlines.
Qed.

End WriterFacts.

Ltac writes_succeed :=
  repeat first
    [ apply succeeds_then
    | apply succeeds_write; assumption
    | apply succeeds_skip
    | apply listed_have_lines;
        [ assumption
        | first [apply card_entries_have_lines
                | apply commander_entries_have_lines]
        | reflexivity ]
    | match goal with
      | |- succeeds (if ?condition then _ else _) => destruct condition
      end ].


